(** * NFC Shield simulator: the scripted run, the log store and the analysis
      requester

    A shallow embedding of [types.ts], [services/geminiService.ts] and the
    [App] component.  The component's [useState] cells become one record,
    its handlers become state-passing functions, and the two asynchronous
    handlers become resumable tasks that an event loop interleaves with the
    user's clicks. *)

From Stdlib Require Import ZArith List String Ascii Bool Lia.
From Stdlib Require Import Numbers.DecimalString Sorting.Sorted.
Import ListNotations.

#[local] Set Warnings "-register-all".

Open Scope string_scope.
Open Scope list_scope.
Open Scope Z_scope.

Infix "+++" := String.append (right associativity, at level 60).

(** ** JavaScript values that cross the service boundary *)

(** The values [JSON.parse] can produce.  A number is kept as the exact
    decimal [m * 10^e] of its literal (rounding to a double, and the sign
    of zero, are not modelled); an object is its list of own properties
    in insertion order (the precedence of index-like names is not
    modelled); a string is modelled by its UTF-8 bytes. *)
Inductive Json : Type :=
| JNull
| JBool (b : bool)
| JNum (m e : Z)
| JStr (s : string)
| JArr (items : list Json)
| JObj (props : list (string * Json)).

Definition dquote : ascii := "034"%char.
Definition newline : string := String "010"%char EmptyString.

Module JSON.

(** [obj[k] = v]: overwrite an own property in place or add it last. *)
Fixpoint set_prop (k : string) (v : Json) (props : list (string * Json))
  : list (string * Json) :=
  match props with
  | [] => [(k, v)]
  | (k', v') :: rest =>
      if String.eqb k k' then (k, v) :: rest
      else (k', v') :: set_prop k v rest
  end.

Fixpoint get_prop (k : string) (props : list (string * Json)) : option Json :=
  match props with
  | [] => None
  | (k', v) :: rest => if String.eqb k k' then Some v else get_prop k rest
  end.

Definition code (c : ascii) : Z := Z.of_N (N_of_ascii c).
Definition chr (n : Z) : ascii := ascii_of_N (Z.to_N n).

Definition is_ws (c : ascii) : bool :=
  let n := code c in (n =? 32) || (n =? 9) || (n =? 10) || (n =? 13).

Fixpoint skip_ws (cs : list ascii) : list ascii :=
  match cs with
  | c :: rest => if is_ws c then skip_ws rest else cs
  | [] => []
  end.

Definition is_digit (c : ascii) : bool :=
  let n := code c in (48 <=? n) && (n <=? 57).

Definition hex_val (c : ascii) : option Z :=
  let n := code c in
  if (48 <=? n) && (n <=? 57) then Some (n - 48)
  else if (65 <=? n) && (n <=? 70) then Some (n - 55)
  else if (97 <=? n) && (n <=? 102) then Some (n - 87)
  else None.

Definition hex4 (cs : list ascii) : option (Z * list ascii) :=
  match cs with
  | a :: b :: c :: d :: rest =>
      match hex_val a, hex_val b, hex_val c, hex_val d with
      | Some x, Some y, Some z, Some w =>
          Some (((x * 16 + y) * 16 + z) * 16 + w, rest)
      | _, _, _, _ => None
      end
  | _ => None
  end.

(** UTF-8 bytes of a code point (a lone surrogate is encoded like any
    other three-byte value). *)
Definition utf8 (cp : Z) : list ascii :=
  if cp <? 128 then [chr cp]
  else if cp <? 2048 then
    [chr (192 + cp / 64); chr (128 + cp mod 64)]
  else if cp <? 65536 then
    [chr (224 + cp / 4096); chr (128 + (cp / 64) mod 64); chr (128 + cp mod 64)]
  else
    [chr (240 + cp / 262144); chr (128 + (cp / 4096) mod 64);
     chr (128 + (cp / 64) mod 64); chr (128 + cp mod 64)].

Definition is_high (u : Z) : bool := (55296 <=? u) && (u <=? 56319).
Definition is_low (u : Z) : bool := (56320 <=? u) && (u <=? 57343).

(** One escape sequence, the backslash already consumed. *)
Definition parse_escape (cs : list ascii) : option (list ascii * list ascii) :=
  match cs with
  | [] => None
  | e :: rest =>
      let n := code e in
      if n =? 34 then Some ([dquote], rest)
      else if n =? 92 then Some ([chr 92], rest)
      else if n =? 47 then Some ([chr 47], rest)
      else if n =? 98 then Some ([chr 8], rest)
      else if n =? 102 then Some ([chr 12], rest)
      else if n =? 110 then Some ([chr 10], rest)
      else if n =? 114 then Some ([chr 13], rest)
      else if n =? 116 then Some ([chr 9], rest)
      else if n =? 117 then
        match hex4 rest with
        | None => None
        | Some (u, rest1) =>
            let alone := Some (utf8 u, rest1) in
            if is_high u then
              match rest1 with
              | b :: x :: rest2 =>
                  if (code b =? 92) && (code x =? 117) then
                    match hex4 rest2 with
                    | Some (lo, rest3) =>
                        if is_low lo
                        then Some (utf8 (65536 + (u - 55296) * 1024 + (lo - 56320)), rest3)
                        else alone
                    | None => alone
                    end
                  else alone
              | _ => alone
              end
            else alone
        end
      else None
  end.

(** What a fuelled parser yields: a value and the rest of the input, a
    syntax error, or nothing because the fuel ran out. *)
Inductive Parsed (A : Type) : Type :=
| Ok (a : A) (rest : list ascii)
| Malformed
| Starved.
Arguments Ok {A} a rest.
Arguments Malformed {A}.
Arguments Starved {A}.

(** The characters of a string literal, the opening quote already
    consumed, up to and including the closing quote. *)
Fixpoint parse_chars (fuel : nat) (cs acc : list ascii) : Parsed string :=
  match fuel with
  | O => Starved
  | S fuel' =>
      match cs with
      | [] => Malformed
      | c :: rest =>
          if code c =? 34 then Ok (string_of_list_ascii (rev acc)) rest
          else if code c =? 92 then
            match parse_escape rest with
            | Some (bytes, rest') => parse_chars fuel' rest' (rev_append bytes acc)
            | None => Malformed
            end
          else if code c <? 32 then Malformed
          else parse_chars fuel' rest (c :: acc)
      end
  end.

Fixpoint span_digits (cs : list ascii) : list ascii * list ascii :=
  match cs with
  | c :: rest =>
      if is_digit c
      then let (ds, rest') := span_digits rest in (c :: ds, rest')
      else ([], cs)
  | [] => ([], [])
  end.

Definition digits_val (ds : list ascii) : Z :=
  fold_left (fun acc d => acc * 10 + (code d - 48)) ds 0.

Fixpoint drop_zeros (ds : list ascii) : list ascii :=
  match ds with
  | d :: rest => if code d =? 48 then drop_zeros rest else ds
  | [] => []
  end.

(** The value of [digits * 10^e], written without trailing zeros. *)
Definition decimal (neg : bool) (digits : list ascii) (e : Z) : Json :=
  let sig := rev (drop_zeros (rev digits)) in
  let m := digits_val sig in
  if m =? 0 then JNum 0 0
  else JNum (if neg then - m else m)
            (e + Z.of_nat (List.length digits - List.length sig)).

Definition parse_exponent (cs : list ascii) : option (Z * list ascii) :=
  match cs with
  | c :: rest =>
      if (code c =? 101) || (code c =? 69) then
        let '(neg, rest1) :=
          match rest with
          | s :: r => if code s =? 45 then (true, r)
                      else if code s =? 43 then (false, r)
                      else (false, rest)
          | [] => (false, rest)
          end in
        match span_digits rest1 with
        | ([], _) => None
        | (ds, rest2) =>
            Some (if neg then - digits_val ds else digits_val ds, rest2)
        end
      else Some (0, cs)
  | [] => Some (0, cs)
  end.

Definition parse_fraction (cs : list ascii) : option (list ascii * list ascii) :=
  match cs with
  | p :: rest =>
      if code p =? 46 then
        match span_digits rest with
        | ([], _) => None
        | (fp, rest') => Some (fp, rest')
        end
      else Some ([], cs)
  | [] => Some ([], cs)
  end.

(** An optional minus sign, an integer part without a leading zero
    (unless it is the single digit 0), an optional fraction and an
    optional exponent. *)
Definition parse_number (cs : list ascii) : option (Json * list ascii) :=
  let '(neg, cs1) :=
    match cs with
    | c :: rest => if code c =? 45 then (true, rest) else (false, cs)
    | [] => (false, cs)
    end in
  let '(ip, cs2) := span_digits cs1 in
  let leading_zero :=
    match ip with z :: _ :: _ => code z =? 48 | _ => false end in
  match ip with
  | [] => None
  | _ :: _ =>
      if leading_zero then None
      else
        match parse_fraction cs2 with
        | None => None
        | Some (fp, cs3) =>
            match parse_exponent cs3 with
            | None => None
            | Some (e, cs4) =>
                Some (decimal neg (ip ++ fp) (e - Z.of_nat (List.length fp)), cs4)
            end
        end
  end.

Fixpoint strip_prefix (word cs : list ascii) : option (list ascii) :=
  match word, cs with
  | [], _ => Some cs
  | x :: word', c :: rest =>
      if code x =? code c then strip_prefix word' rest else None
  | _ :: _, [] => None
  end.

Definition literal (word : string) (v : Json) (cs : list ascii) : Parsed Json :=
  match strip_prefix (list_ascii_of_string word) cs with
  | Some rest => Ok v rest
  | None => Malformed
  end.

Definition number (cs : list ascii) : Parsed Json :=
  match parse_number cs with
  | Some (v, rest) => Ok v rest
  | None => Malformed
  end.

(** A value, then the elements of an array after its bracket, then the
    members of an object after its brace. *)
Fixpoint parse_value (fuel : nat) (cs : list ascii) : Parsed Json :=
  match fuel with
  | O => Starved
  | S fuel' =>
      match skip_ws cs with
      | [] => Malformed
      | c :: rest =>
          let n := code c in
          if n =? 34 then
            match parse_chars fuel' rest [] with
            | Ok s rest' => Ok (JStr s) rest'
            | Malformed => Malformed
            | Starved => Starved
            end
          else if n =? 91 then
            match skip_ws rest with
            | c' :: rest' =>
                if code c' =? 93 then Ok (JArr []) rest'
                else parse_elements fuel' rest []
            | [] => Malformed
            end
          else if n =? 123 then
            match skip_ws rest with
            | c' :: rest' =>
                if code c' =? 125 then Ok (JObj []) rest'
                else parse_members fuel' rest []
            | [] => Malformed
            end
          else if n =? 116 then literal "true" (JBool true) (c :: rest)
          else if n =? 102 then literal "false" (JBool false) (c :: rest)
          else if n =? 110 then literal "null" JNull (c :: rest)
          else number (c :: rest)
      end
  end
with parse_elements (fuel : nat) (cs : list ascii) (acc : list Json) : Parsed Json :=
  match fuel with
  | O => Starved
  | S fuel' =>
      match parse_value fuel' cs with
      | Ok v rest =>
          match skip_ws rest with
          | c :: rest' =>
              if code c =? 44 then parse_elements fuel' rest' (v :: acc)
              else if code c =? 93 then Ok (JArr (rev (v :: acc))) rest'
              else Malformed
          | [] => Malformed
          end
      | Malformed => Malformed
      | Starved => Starved
      end
  end
with parse_members (fuel : nat) (cs : list ascii) (acc : list (string * Json))
  : Parsed Json :=
  match fuel with
  | O => Starved
  | S fuel' =>
      match skip_ws cs with
      | q :: rest =>
          if code q =? 34 then
            match parse_chars fuel' rest [] with
            | Ok k rest1 =>
                match skip_ws rest1 with
                | colon :: rest2 =>
                    if code colon =? 58 then
                      match parse_value fuel' rest2 with
                      | Ok v rest3 =>
                          match skip_ws rest3 with
                          | c :: rest4 =>
                              if code c =? 44
                              then parse_members fuel' rest4 (set_prop k v acc)
                              else if code c =? 125
                              then Ok (JObj (set_prop k v acc)) rest4
                              else Malformed
                          | [] => Malformed
                          end
                      | Malformed => Malformed
                      | Starved => Starved
                      end
                    else Malformed
                | [] => Malformed
                end
            | Malformed => Malformed
            | Starved => Starved
            end
          else Malformed
      | [] => Malformed
      end
  end.

(** Fuel that never runs out on [cs] (see [parse_value_fed]). *)
Definition enough (cs : list ascii) : nat := 2 * List.length cs + 2.

(** [JSON.parse(text)]: [None] stands for the [SyntaxError] it throws. *)
Definition parse (text : string) : option Json :=
  let cs := list_ascii_of_string text in
  match parse_value (enough cs) cs with
  | Ok v rest =>
      match skip_ws rest with
      | [] => Some v
      | _ :: _ => None
      end
  | Malformed => None
  | Starved => None
  end.

End JSON.

(** ** types.ts *)

Inductive ATMAttackState : Type :=
| IDLE | SCANNING | CARD_DETECTED | PIN_BYPASS | AMOUNT_SELECTION
| TRANSACTION_PROCESSING | COMPLETED | FAILED.

Inductive Level : Type := INFO | WARNING | ERROR | SUCCESS.

Record LogEntry : Type := {
  id : string;
  timestamp : Z;
  level : Level;
  message : string;
  data : option Json
}.

(** A value of the interface [AnalysisResult]: an object with the four
    properties, in the order the service module writes them. *)
Definition AnalysisResult (vulnerabilityScore : Json) (threatType : string)
    (recommendations : list string) (summary : string) : Json :=
  JObj [("vulnerabilityScore", vulnerabilityScore);
        ("threatType", JStr threatType);
        ("recommendations", JArr (map JStr recommendations));
        ("summary", JStr summary)].

Definition AnalysisResult_keys : list string :=
  ["vulnerabilityScore"; "threatType"; "recommendations"; "summary"].

Definition get (k : string) (v : Json) : option Json :=
  match v with
  | JObj props => JSON.get_prop k props
  | _ => None
  end.

Definition has (v : Json) (k : string) : bool :=
  match get k v with Some _ => true | None => false end.

(** A complete record: an object that owns all four properties. *)
Definition complete (v : Json) : bool := forallb (has v) AnalysisResult_keys.

(** ** Formatting *)

Definition show (n : Z) : string := NilZero.string_of_int (Z.to_int n).

Fixpoint zeros (n : nat) : string :=
  match n with
  | O => EmptyString
  | S n' => String "0" (zeros n')
  end.

Definition pad (width : nat) (n : Z) : string :=
  let digits := show n in
  zeros (width - String.length digits) +++ digits.

Definition show_level (l : Level) : string :=
  match l with
  | INFO => "INFO"
  | WARNING => "WARNING"
  | ERROR => "ERROR"
  | SUCCESS => "SUCCESS"
  end.

(** Year, month and day of a day number counted from 1970-01-01. *)
Definition civil (days : Z) : Z * Z * Z :=
  let z := days + 719468 in
  let era := z / 146097 in
  let doe := z - era * 146097 in
  let yoe := (doe - doe / 1460 + doe / 36524 - doe / 146096) / 365 in
  let doy := doe - (365 * yoe + yoe / 4 - yoe / 100) in
  let mp := (5 * doy + 2) / 153 in
  let d := doy - (153 * mp + 2) / 5 + 1 in
  let m := if mp <? 10 then mp + 3 else mp - 9 in
  (yoe + era * 400 + (if m <=? 2 then 1 else 0), m, d).

(** [new Date(t).toISOString()]; [None] stands for the [RangeError] on a
    time value outside the range of [Date]. *)
Definition toISOString (t : Z) : option string :=
  if (t <? -8640000000000000) || (8640000000000000 <? t) then None
  else
    let '(y, m, d) := civil (t / 86400000) in
    let ms := t mod 86400000 in
    let year :=
      if (0 <=? y) && (y <=? 9999) then pad 4 y
      else (if y <? 0 then "-" else "+") +++ pad 6 (Z.abs y) in
    Some (year +++ "-" +++ pad 2 m +++ "-" +++ pad 2 d +++ "T"
          +++ pad 2 (ms / 3600000) +++ ":" +++ pad 2 ((ms / 60000) mod 60)
          +++ ":" +++ pad 2 ((ms / 1000) mod 60)
          +++ "." +++ pad 3 (ms mod 1000) +++ "Z").

(** ** services/geminiService.ts *)

(** The request; of its schema, an object type, the properties' types
    and the required names are kept, the descriptions are not. *)
Inductive SchemaType : Type := NUMBER | STRING | ARRAY_OF_STRING.

Record Request : Type := {
  model : string;
  contents : string;
  systemInstruction : string;
  responseMimeType : string;
  properties : list (string * SchemaType);
  required : list string
}.

Definition responseSchema : list (string * SchemaType) :=
  [("vulnerabilityScore", NUMBER); ("threatType", STRING);
   ("recommendations", ARRAY_OF_STRING); ("summary", STRING)].

Definition is_string (v : Json) : bool :=
  match v with JStr _ => true | _ => false end.

Definition has_type (t : SchemaType) (v : Json) : bool :=
  match t, v with
  | NUMBER, JNum _ _ => true
  | STRING, JStr _ => true
  | ARRAY_OF_STRING, JArr items => forallb is_string items
  | _, _ => false
  end.

(** A payload that satisfies the request's schema: an object in which
    every required property is present with the declared type. *)
Definition schema_valid (v : Json) : bool :=
  match v with
  | JObj _ =>
      forallb (fun p : string * SchemaType =>
                 match get (fst p) v with
                 | Some x => has_type (snd p) x
                 | None => false
                 end) responseSchema
  | _ => false
  end.

(** What [await ai.models.generateContent(...)] does: it yields a
    response, whose [text] may be undefined, or it throws. *)
Inductive Outcome : Type :=
| Responds (text : option string)
| Rejects (reason : string).

(** A completed [async] call: the value it returned or what it threw. *)
Inductive Settled (A : Type) : Type :=
| Fulfilled (value : A)
| Rejected (reason : string).
Arguments Fulfilled {A} value.
Arguments Rejected {A} reason.

Fixpoint join (sep : string) (lines : list string) : string :=
  match lines with
  | [] => EmptyString
  | [l] => l
  | l :: rest => l +++ sep +++ join sep rest
  end.

(** [logs.map(l => `[${new Date(l.timestamp).toISOString()}] ...`)]; the
    first entry whose date cannot be printed aborts the map. *)
Fixpoint log_lines (logs : list LogEntry) : option (list string) :=
  match logs with
  | [] => Some []
  | l :: rest =>
      match toISOString (timestamp l) with
      | None => None
      | Some iso =>
          match log_lines rest with
          | None => None
          | Some lines =>
              Some (("[" +++ iso +++ "] " +++ show_level (level l) +++ ": "
                     +++ message l) :: lines)
          end
      end
  end.

Definition fallback : Json :=
  AnalysisResult (JNum 0 0) "Analysis Failed"
    ["Ensure API connectivity"; "Check log formatting"]
    "Could not generate analysis at this time.".

(** Up to the [await]: the request handed to the service. *)
Definition analyzeNFCLogs_request (logs : list LogEntry) : Settled Request :=
  match log_lines logs with
  | None => Rejected "RangeError: Invalid time value"
  | Some lines =>
      let logContext := join newline lines in
      Fulfilled
        {| model := "gemini-3-flash-preview";
           contents :=
             "Analyze the following NFC transaction logs for security vulnerabilities like PIN bypass, transaction forcing, or relay attacks. "
             +++ newline +++ "    Logs:" +++ newline +++ "    " +++ logContext;
           systemInstruction :=
             "You are a world-class Cybersecurity Researcher specializing in EMV and NFC security. Return a detailed JSON analysis of the provided logs.";
           responseMimeType := "application/json";
           properties := responseSchema;
           required := AnalysisResult_keys |}
  end.

(** [response.text || '{}']: an undefined or empty text is replaced. *)
Definition text_or (text : option string) (default : string) : string :=
  match text with
  | None => default
  | Some EmptyString => default
  | Some t => t
  end.

(** After the [await]: a rejection passes through, since the call is
    made outside the [try]; the [try] covers [JSON.parse] alone. *)
Definition analyzeNFCLogs_settle (o : Outcome) : Settled Json :=
  match o with
  | Rejects reason => Rejected reason
  | Responds text =>
      match JSON.parse (text_or text "{}") with
      | Some v => Fulfilled v
      | None => Fulfilled fallback
      end
  end.

(** The whole function against a service [generateContent]. *)
Definition analyzeNFCLogs (generateContent : Request -> Outcome)
    (logs : list LogEntry) : Settled Json :=
  match analyzeNFCLogs_request logs with
  | Rejected reason => Rejected reason
  | Fulfilled req => analyzeNFCLogs_settle (generateContent req)
  end.

(** ** The component's state and its environment *)

Record App : Type := {
  state : ATMAttackState;
  logs : list LogEntry;
  selectedAmount : Z;
  analysis : Json;
  isAnalyzing : bool
}.

Definition initial : App :=
  {| state := IDLE; logs := []; selectedAmount := 0; analysis := JNull;
     isAnalyzing := false |}.

(** One result of [Math.random()], seen through the two expressions the
    component applies to it. *)
Record Random : Type := {
  toString36 : string;
  times200_floor : Z
}.

(** The environment: the successive results of [Math.random()] and
    [Date.now()], and the answer of the service to each numbered call. *)
Record World : Type := {
  Math_random : nat -> Random;
  Date_now : nat -> Z;
  generateContent : nat -> Request -> Outcome
}.

(** A call of one of the five state setters, with the value the cell
    takes. *)
Inductive Write : Type :=
| SetState (v : ATMAttackState)
| SetLogs (v : list LogEntry)
| SetSelectedAmount (v : Z)
| SetAnalysis (v : Json)
| SetIsAnalyzing (v : bool).

Definition store (x : Write) (a : App) : App :=
  match x with
  | SetState v =>
      {| state := v; logs := logs a; selectedAmount := selectedAmount a;
         analysis := analysis a; isAnalyzing := isAnalyzing a |}
  | SetLogs v =>
      {| state := state a; logs := v; selectedAmount := selectedAmount a;
         analysis := analysis a; isAnalyzing := isAnalyzing a |}
  | SetSelectedAmount v =>
      {| state := state a; logs := logs a; selectedAmount := v;
         analysis := analysis a; isAnalyzing := isAnalyzing a |}
  | SetAnalysis v =>
      {| state := state a; logs := logs a; selectedAmount := selectedAmount a;
         analysis := v; isAnalyzing := isAnalyzing a |}
  | SetIsAnalyzing v =>
      {| state := state a; logs := logs a; selectedAmount := selectedAmount a;
         analysis := analysis a; isAnalyzing := v |}
  end.

(** The component's cells, the number of draws, clock readings and
    service calls made so far, and the history of setter calls (a ghost
    field: the component does not read it). *)
Record St : Type := {
  app : App;
  draws : nat;
  readings : nat;
  calls : nat;
  history : list Write
}.

Definition boot : St :=
  {| app := initial; draws := 0; readings := 0; calls := 0; history := [] |}.

Definition M (A : Type) : Type := World -> St -> A * St.

Definition ret {A} (a : A) : M A := fun _ s => (a, s).

Definition bind {A B} (c : M A) (k : A -> M B) : M B :=
  fun w s => let (a, s') := c w s in k a w s'.

Notation "x <- c ;; k" := (bind c (fun x => k))
  (at level 61, c at next level, right associativity).
Notation "c ;; k" := (bind c (fun _ => k))
  (at level 61, right associativity).

Definition exec {A} (c : M A) (w : World) (s : St) : St := snd (c w s).
Definition eval {A} (c : M A) (w : World) (s : St) : A := fst (c w s).

Definition write (x : Write) : M unit :=
  fun _ s => (tt, {| app := store x (app s); draws := draws s;
                     readings := readings s; calls := calls s;
                     history := history s ++ [x] |}).

(** The cells as the handler sees them when it starts. *)
Definition render : M App := fun _ s => (app s, s).

Definition random : M Random :=
  fun w s => (Math_random w (draws s),
              {| app := app s; draws := S (draws s);
                 readings := readings s; calls := calls s;
                 history := history s |}).

Definition now : M Z :=
  fun w s => (Date_now w (readings s),
              {| app := app s; draws := draws s;
                 readings := S (readings s); calls := calls s;
                 history := history s |}).

(** Issue the request: the call is numbered, its answer comes later. *)
Definition call_service : M nat :=
  fun _ s => (calls s,
              {| app := app s; draws := draws s;
                 readings := readings s; calls := S (calls s);
                 history := history s |}).

Definition setState (v : ATMAttackState) : M unit := write (SetState v).

(** [setLogs(prev => ...)]: the updater runs on the latest value. *)
Definition setLogs (f : list LogEntry -> list LogEntry) : M unit :=
  fun w s => write (SetLogs (f (logs (app s)))) w s.

Definition setSelectedAmount (v : Z) : M unit := write (SetSelectedAmount v).
Definition setAnalysis (v : Json) : M unit := write (SetAnalysis v).
Definition setIsAnalyzing (v : bool) : M unit := write (SetIsAnalyzing v).

(** ** The handlers of [App] *)

(** [Math.random().toString(36).substr(2, 9)] *)
Definition fresh_id (r : Random) : string := substring 2 9 (toString36 r).

Definition addLog (message : string) (level : Level) (data : option Json) : M unit :=
  r <- random ;;
  t <- now ;;
  let newLog := {| id := fresh_id r; timestamp := t; level := level;
                   message := message; data := data |} in
  setLogs (fun prev => prev ++ [newLog]).

(** Where [startSimulation] is suspended: at which of its five timers,
    with the local [amount] once it is bound. *)
Inductive Run : Type :=
| Timer1 | Timer2 | Timer3 | Timer4 (amount : Z) | Timer5 (amount : Z).

Definition delay (r : Run) : Z :=
  match r with
  | Timer1 => 2000
  | Timer2 => 1500
  | Timer3 => 2000
  | Timer4 _ => 1500
  | Timer5 _ => 2500
  end.

(** [startSimulation] up to its first [await]. *)
Definition startSimulation_begin : M Run :=
  setAnalysis JNull ;;
  setState SCANNING ;;
  addLog "NFC Controller initialized. Listening for targets..." INFO None ;;
  ret Timer1.

(** [startSimulation] from one [await] to the next, or to its end. *)
Definition startSimulation_resume (r : Run) : M (option Run) :=
  match r with
  | Timer1 =>
      setState CARD_DETECTED ;;
      addLog "Target Card Detected: ISO/IEC 14443 Type A" SUCCESS
             (Some (JObj [("uid", JStr "04:A2:F1:C9")])) ;;
      ret (Some Timer2)
  | Timer2 =>
      setState PIN_BYPASS ;;
      addLog "Executing PIN Bypass Payload (Modifying 0x9F34 CVM Results)..."
             WARNING None ;;
      ret (Some Timer3)
  | Timer3 =>
      addLog "CVM verification bypassed. Authorized for Offline PIN." SUCCESS None ;;
      setState AMOUNT_SELECTION ;;
      r <- random ;;
      let amount := times200_floor r + 20 in
      setSelectedAmount amount ;;
      addLog ("Force-selecting withdrawal amount: $" +++ show amount) INFO None ;;
      ret (Some (Timer4 amount))
  | Timer4 amount =>
      setState TRANSACTION_PROCESSING ;;
      addLog "Broadcasting encrypted payload to reader..." INFO None ;;
      ret (Some (Timer5 amount))
  | Timer5 amount =>
      setState COMPLETED ;;
      addLog ("Simulation complete. Transaction accepted by mock gateway. Total: $"
              +++ show amount) SUCCESS None ;;
      ret None
  end.

(** [analyzeNFCLogs] suspended at its [await], inside [handleAnalyze]. *)
Inductive Pending : Type :=
| Awaiting (call : nat) (req : Request).

(** [handleAnalyze] up to the [await]. A [RangeError] raised while the
    request is built rejects the promise at once, so the [catch] and
    [finally] blocks run before any other event. *)
Definition handleAnalyze : M (option Pending) :=
  a <- render ;;
  if (List.length (logs a) =? 0)%nat then ret None
  else
    setIsAnalyzing true ;;
    match analyzeNFCLogs_request (logs a) with
    | Rejected _ =>
        addLog "Failed to analyze logs with Gemini." ERROR None ;;
        setIsAnalyzing false ;;
        ret None
    | Fulfilled req =>
        n <- call_service ;;
        ret (Some (Awaiting n req))
    end.

(** [handleAnalyze] once the service has answered. *)
Definition handleAnalyze_settled (p : Pending) : M unit :=
  fun w =>
    match p with
    | Awaiting n req =>
        (match analyzeNFCLogs_settle (generateContent w n req) with
         | Fulfilled result =>
             setAnalysis result ;;
             addLog "Gemini AI Analysis complete." SUCCESS None
         | Rejected _ =>
             addLog "Failed to analyze logs with Gemini." ERROR None
         end ;;
         setIsAnalyzing false) w
    end.

Definition resetSimulator : M unit :=
  setState IDLE ;;
  setLogs (fun _ => []) ;;
  setSelectedAmount 0 ;;
  setAnalysis JNull.

(** ** The event loop *)

(** The two asynchronous handlers run in stretches; between two stretches
    any other event may take place.  The loop lets suspended tasks wake
    in any order, which covers every order in which timers and service
    answers can arrive. *)

Inductive Task : Type :=
| Simulation (r : Run)
| Analysis (p : Pending).

Record Sys : Type := {
  st : St;
  tasks : list Task
}.

Definition power_on : Sys := {| st := boot; tasks := [] |}.

(** A click on one of the three buttons, or the wake-up of the [i]-th
    suspended task (its timer fires, or its service call settles). *)
Inductive Event : Type :=
| ClickStart
| ClickAnalyze
| ClickReset
| Wake (i : nat).

Definition start_enabled (a : App) : bool :=
  match state a with IDLE => true | _ => false end.

Definition analyze_enabled (a : App) : bool :=
  negb ((List.length (logs a) =? 0)%nat || isAnalyzing a).

Fixpoint remove_nth {A} (i : nat) (l : list A) : list A :=
  match i, l with
  | _, [] => []
  | O, _ :: rest => rest
  | S i', x :: rest => x :: remove_nth i' rest
  end.

Definition spawn {A} (wrap : A -> Task) (o : option A) : list Task :=
  match o with
  | Some k => [wrap k]
  | None => []
  end.

(** One turn of the loop; [None] when the event cannot happen (the
    button is disabled, or there is no such task). *)
Definition fire (w : World) (e : Event) (m : Sys) : option Sys :=
  match e with
  | ClickStart =>
      if start_enabled (app (st m)) then
        let (r, s') := startSimulation_begin w (st m) in
        Some {| st := s'; tasks := tasks m ++ [Simulation r] |}
      else None
  | ClickAnalyze =>
      if analyze_enabled (app (st m)) then
        let (p, s') := handleAnalyze w (st m) in
        Some {| st := s'; tasks := tasks m ++ spawn Analysis p |}
      else None
  | ClickReset =>
      Some {| st := exec resetSimulator w (st m); tasks := tasks m |}
  | Wake i =>
      match nth_error (tasks m) i with
      | None => None
      | Some (Simulation r) =>
          let (next, s') := startSimulation_resume r w (st m) in
          Some {| st := s'; tasks := remove_nth i (tasks m) ++ spawn Simulation next |}
      | Some (Analysis p) =>
          Some {| st := exec (handleAnalyze_settled p) w (st m);
                  tasks := remove_nth i (tasks m) |}
      end
  end.

Fixpoint fire_all (w : World) (es : list Event) (m : Sys) : option Sys :=
  match es with
  | [] => Some m
  | e :: rest =>
      match fire w e m with
      | Some m' => fire_all w rest m'
      | None => None
      end
  end.

Inductive reachable (w : World) : Sys -> Prop :=
| reach_power_on : reachable w power_on
| reach_fire e m m' :
    reachable w m -> fire w e m = Some m' -> reachable w m'.

Definition startSimulation_resume_next (o : option Run) : M (option Run) :=
  match o with
  | Some r => startSimulation_resume r
  | None => ret None
  end.

(** [startSimulation] from its call to its end, when no other event comes
    between its six stretches; it yields the task left suspended, if any. *)
Definition startSimulation : M (option Run) :=
  r1 <- startSimulation_begin ;;
  r2 <- startSimulation_resume r1 ;;
  r3 <- startSimulation_resume_next r2 ;;
  r4 <- startSimulation_resume_next r3 ;;
  r5 <- startSimulation_resume_next r4 ;;
  startSimulation_resume_next r5.

(** ** Sample environments *)

(** Nine results of [Math.random()] with their base-36 print and the
    floor of two hundred times their value: 1/2, 1/4, 3/4, 1/8, 3/8, 5/8,
    7/8, 1/16 and 3/16. *)
Definition sample_draws : list Random :=
  [{| toString36 := "0.i"; times200_floor := 100 |};
   {| toString36 := "0.9"; times200_floor := 50 |};
   {| toString36 := "0.r"; times200_floor := 150 |};
   {| toString36 := "0.4i"; times200_floor := 25 |};
   {| toString36 := "0.di"; times200_floor := 75 |};
   {| toString36 := "0.mi"; times200_floor := 125 |};
   {| toString36 := "0.vi"; times200_floor := 175 |};
   {| toString36 := "0.29"; times200_floor := 12 |};
   {| toString36 := "0.6r"; times200_floor := 37 |}].

(** The draws of [sample_draws] (then 1/2 for ever), a clock that
    advances one millisecond per reading, and a service that always
    gives [answer]. *)
Definition sample_world (answer : Outcome) : World :=
  {| Math_random := fun n =>
       nth n sample_draws {| toString36 := "0.i"; times200_floor := 100 |};
     Date_now := fun n => 1700000000000 + Z.of_nat n;
     generateContent := fun _ _ => answer |}.

(** Every draw is 1/2, which prints as 0.i. *)
Definition constant_world : World :=
  {| Math_random := fun _ => {| toString36 := "0.i"; times200_floor := 100 |};
     Date_now := fun n => 1700000000000 + Z.of_nat n;
     generateContent := fun _ _ => Responds None |}.

(** Two calls of [addLog] in [constant_world]. *)
Definition after_first : St := exec (addLog "first" INFO None) constant_world boot.
Definition after_second : St :=
  exec (addLog "second" INFO None) constant_world after_first.

Definition sample_logs : list LogEntry :=
  [{| id := "4fzyo82mv"; timestamp := 1700000000000; level := INFO;
      message := "NFC Controller initialized. Listening for targets...";
      data := None |}].

Definition quoted (s : string) : string := String dquote (s +++ String dquote EmptyString).

Definition sample_payload : string :=
  "{" +++ quoted "vulnerabilityScore" +++ ": 85, "
  +++ quoted "threatType" +++ ": " +++ quoted "Relay Attack" +++ ", "
  +++ quoted "recommendations" +++ ": [" +++ quoted "Enforce online PIN" +++ "], "
  +++ quoted "summary" +++ ": " +++ quoted "CVM downgrade observed." +++ "}".

Definition truncated_payload : string :=
  "{" +++ quoted "vulnerabilityScore" +++ ": 50}".

(** ** Vocabulary of the statements *)

(** The entry [addLog] creates when it is called in [s]. *)
Definition new_entry (w : World) (s : St) (message : string) (lvl : Level)
    (d : option Json) : LogEntry :=
  {| id := fresh_id (Math_random w (draws s));
     timestamp := Date_now w (readings s);
     level := lvl; message := message; data := d |}.

(** A sequence of calls of [addLog]. *)
Fixpoint addLogs (items : list (string * Level * option Json)) : M unit :=
  match items with
  | [] => ret tt
  | (message, lvl, d) :: rest => addLog message lvl d ;; addLogs rest
  end.

(** The values given to [setState], and to [setAnalysis], in a history. *)
Fixpoint state_writes (h : list Write) : list ATMAttackState :=
  match h with
  | [] => []
  | SetState v :: rest => v :: state_writes rest
  | _ :: rest => state_writes rest
  end.

Fixpoint analysis_writes (h : list Write) : list Json :=
  match h with
  | [] => []
  | SetAnalysis v :: rest => v :: analysis_writes rest
  | _ :: rest => analysis_writes rest
  end.

(** The service call fails, or [JSON.parse] fails on what it is given. *)
Definition fails (o : Outcome) : bool :=
  match o with
  | Rejects _ => true
  | Responds text =>
      match JSON.parse (text_or text "{}") with
      | None => true
      | Some _ => false
      end
  end.

(** A computation that only ever extends the log sequence. *)
Definition extends {A} (c : M A) : Prop :=
  forall w s, exists added, logs (app (exec c w s)) = logs (app s) ++ added.

(** The failed state is not current and was never written. *)
Definition never_failed (s : St) : Prop :=
  state (app s) <> FAILED /\ ~ In FAILED (state_writes (history s)).

(** A computation that preserves [never_failed]. *)
Definition safe {A} (c : M A) : Prop :=
  forall w s, never_failed s -> never_failed (exec c w s).

(** ** The rest of the service module and of the component *)



(** [list.map((x, i) => f(x, i))] *)
Fixpoint mapi_from {A B} (f : A -> nat -> B) (i : nat) (l : list A) : list B :=
  match l with
  | [] => []
  | x :: rest => f x i :: mapi_from f (S i) rest
  end.

Definition mapi {A B} (f : A -> nat -> B) (l : list A) : list B := mapi_from f 0 l.

Record ChartPoint : Type := {
  time : Z;
  val : Z
}.

Definition charted (l : LogEntry) : bool :=
  match level l with
  | SUCCESS => true
  | WARNING => true
  | _ => false
  end.

Definition chartData (logs : list LogEntry) : list ChartPoint :=
  mapi (fun l i => {| time := Z.of_nat i;
                      val := match level l with SUCCESS => 100 | _ => 50 end |})
       (filter charted logs).

(** The [data] handed to the area chart. *)
Definition chart_series (logs : list LogEntry) : list ChartPoint :=
  if (0 <? List.length (chartData logs))%nat then chartData logs
  else [{| time := 0; val := 0 |}; {| time := 1; val := 5 |}; {| time := 2; val := 2 |}].

(** The string value of each member of the enum. *)
Definition state_name (s : ATMAttackState) : string :=
  match s with
  | IDLE => "IDLE"
  | SCANNING => "SCANNING"
  | CARD_DETECTED => "CARD_DETECTED"
  | PIN_BYPASS => "PIN_BYPASS"
  | AMOUNT_SELECTION => "AMOUNT_SELECTION"
  | TRANSACTION_PROCESSING => "TRANSACTION_PROCESSING"
  | COMPLETED => "COMPLETED"
  | FAILED => "FAILED"
  end.

Module StatusBadge.

Definition colors : list (string * string) :=
  [(state_name IDLE, "bg-gray-600");
   (state_name SCANNING, "bg-yellow-500 animate-pulse");
   (state_name CARD_DETECTED, "bg-blue-500");
   (state_name PIN_BYPASS, "bg-orange-500");
   (state_name AMOUNT_SELECTION, "bg-purple-500");
   (state_name TRANSACTION_PROCESSING, "bg-indigo-500 animate-pulse");
   (state_name COMPLETED, "bg-green-500");
   (state_name FAILED, "bg-red-500")].

Fixpoint lookup (k : string) (table : list (string * string)) : option string :=
  match table with
  | [] => None
  | (k', v) :: rest => if String.eqb k k' then Some v else lookup k rest
  end.

(** [colors[state] || 'bg-gray-500'] *)
Definition color (s : ATMAttackState) : string :=
  match lookup (state_name s) colors with
  | None => "bg-gray-500"
  | Some EmptyString => "bg-gray-500"
  | Some c => c
  end.

Definition className (s : ATMAttackState) : string :=
  color s +++ " text-white text-xs font-bold px-2 py-1 rounded uppercase tracking-wider".

(** [text.replace(/_/g, ' ')] *)
Fixpoint replace_underscores (text : string) : string :=
  match text with
  | EmptyString => EmptyString
  | String c rest =>
      String (if Ascii.eqb c "_" then " "%char else c) (replace_underscores rest)
  end.

Definition label (s : ATMAttackState) : string := replace_underscores (state_name s).

End StatusBadge.

(** Whether a value counts as true in a condition. *)
Definition truthy (v : Json) : bool :=
  match v with
  | JNull => false
  | JBool b => b
  | JNum m _ => negb (m =? 0)
  | JStr s => negb (String.eqb s EmptyString)
  | JArr _ => true
  | JObj _ => true
  end.

(** [analysis.recommendations.map((rec, i) => <li key={i}>...{rec}...</li>)]:
    the keys and the texts of the list items, or the [TypeError] raised
    when [recommendations] is not an array. *)
Definition recommendation_items (analysis : Json) : Settled (list (nat * Json)) :=
  match get "recommendations" analysis with
  | Some (JArr items) => Fulfilled (mapi (fun rec i => (i, rec)) items)
  | _ => Rejected "TypeError: analysis.recommendations.map is not a function"
  end.

(** The report panel: the placeholder ([None]) when [!analysis], else
    the report with its list of recommendations. *)
Definition report_panel (analysis : Json) : Settled (option (list (nat * Json))) :=
  if truthy analysis then
    match recommendation_items analysis with
    | Fulfilled items => Fulfilled (Some items)
    | Rejected reason => Rejected reason
    end
  else Fulfilled None.

(** ** Vocabulary of the further statements *)

Definition valid_time (t : Z) : Prop :=
  -8640000000000000 <= t <= 8640000000000000.

(** The suspended runs and the suspended analyses among the tasks. *)
Fixpoint simulations (ts : list Task) : list Run :=
  match ts with
  | [] => []
  | Simulation r :: rest => r :: simulations rest
  | Analysis _ :: rest => simulations rest
  end.

Fixpoint analyses (ts : list Task) : list Pending :=
  match ts with
  | [] => []
  | Analysis p :: rest => p :: analyses rest
  | Simulation _ :: rest => analyses rest
  end.

(** The run that the cells announce: none when idle or completed, else
    the run waiting on the timer that follows the current stage, with the
    selected amount once it is drawn. *)
Definition announced_run (a : App) : list Run :=
  match state a with
  | IDLE => []
  | SCANNING => [Timer1]
  | CARD_DETECTED => [Timer2]
  | PIN_BYPASS => [Timer3]
  | AMOUNT_SELECTION => [Timer4 (selectedAmount a)]
  | TRANSACTION_PROCESSING => [Timer5 (selectedAmount a)]
  | COMPLETED => []
  | FAILED => []
  end.

(** Where the identifier and the timestamp of each entry come from: the
    entries stem, in order, from draws and clock readings of increasing
    numbers, all made already. *)
Definition origin_lt (p q : nat * nat) : Prop :=
  (fst p < fst q)%nat /\ (snd p < snd q)%nat.

Definition provenance (w : World) (s : St) : Prop :=
  exists origins : list (nat * nat),
    map (fun e => (id e, timestamp e)) (logs (app s))
    = map (fun p => (fresh_id (Math_random w (fst p)), Date_now w (snd p))) origins /\
    StronglySorted origin_lt origins /\
    Forall (fun p => (fst p < draws s)%nat /\ (snd p < readings s)%nat) origins.

(** A computation that preserves [provenance]. *)
Definition traceable {A} (c : M A) : Prop :=
  forall w s, provenance w s -> provenance w (exec c w s).

(** At most one analysis is in flight, and [isAnalyzing] tells whether
    one is. *)
Definition one_analysis_in_flight (m : Sys) : Prop :=
  List.length (analyses (tasks m)) = if isAnalyzing (app (st m)) then 1%nat else 0%nat.

(** The suspended runs are the one the cells announce. *)
Definition run_announced (m : Sys) : Prop :=
  simulations (tasks m) = announced_run (app (st m)).

(** The events of an uninterrupted run started in [m]: the click on
    start, then the five wake-ups of the run it suspends, which is the
    last of the tasks, with no other event in between. *)
Definition uninterrupted_run (m : Sys) : list Event :=
  ClickStart :: repeat (Wake (List.length (tasks m))) 5.


(** A computation that calls [setState] not at all. *)
Definition stateless {A} (c : M A) : Prop :=
  forall w s,
    state_writes (history (exec c w s)) = state_writes (history s) /\
    state (app (exec c w s)) = state (app s).


(** * Properties *)

(** ** [JSON.parse] is total *)

Module JSONFacts.
Import JSON.
Local Open Scope nat_scope.

Lemma skip_ws_length cs : List.length (skip_ws cs) <= List.length cs.
Proof.
  induction cs as [ | c cs IH]; simpl; [lia | ].
  destruct (is_ws c); simpl; lia.
Qed.

Lemma skip_ws_cons cs c rest :
  skip_ws cs = c :: rest -> S (List.length rest) <= List.length cs.
Proof. intros H. pose proof (skip_ws_length cs) as L. now rewrite H in L. Qed.

Lemma hex4_length cs u rest :
  hex4 cs = Some (u, rest) -> List.length rest < List.length cs.
Proof.
  unfold hex4. destruct cs as [ | a [ | b [ | c [ | d r]]]]; try discriminate.
  destruct (hex_val a), (hex_val b), (hex_val c), (hex_val d); try discriminate.
  intros H. inversion H; subst. simpl. lia.
Qed.

Ltac break :=
  match goal with
  | H : context [match ?x with _ => _ end] |- _ => destruct x eqn:?
  | H : context [if ?x then _ else _] |- _ => destruct x eqn:?
  end.

Lemma parse_escape_length cs bytes rest :
  parse_escape cs = Some (bytes, rest) -> List.length rest < List.length cs.
Proof.
  unfold parse_escape. intros H.
  repeat (break; try discriminate);
    repeat match goal with
           | E : hex4 _ = Some _ |- _ => apply hex4_length in E
           | E : Some _ = Some _ |- _ => inversion E; clear E; subst
           end; simpl in *; lia.
Qed.

Lemma parse_chars_length fuel : forall cs acc s rest,
  parse_chars fuel cs acc = Ok s rest -> List.length rest < List.length cs.
Proof.
  induction fuel as [ | fuel IH]; intros cs acc s rest H; simpl in H;
    [discriminate | ].
  destruct cs as [ | c cs]; [discriminate | ].
  destruct (code c =? 34)%Z; [inversion H; subst; simpl; lia | ].
  destruct (code c =? 92)%Z.
  - destruct (parse_escape cs) as [[bytes rest'] | ] eqn:E; [ | discriminate].
    apply parse_escape_length in E. apply IH in H. simpl. lia.
  - destruct (code c <? 32)%Z; [discriminate | ].
    apply IH in H. simpl. lia.
Qed.

Lemma parse_chars_fed fuel : forall cs acc,
  List.length cs < fuel -> parse_chars fuel cs acc <> Starved.
Proof.
  induction fuel as [ | fuel IH]; intros cs acc L; [lia | ]. simpl.
  destruct cs as [ | c cs]; [discriminate | ]. simpl in L.
  destruct (code c =? 34)%Z; [discriminate | ].
  destruct (code c =? 92)%Z.
  - destruct (parse_escape cs) as [[bytes rest'] | ] eqn:E; [ | discriminate].
    apply parse_escape_length in E. apply IH. lia.
  - destruct (code c <? 32)%Z; [discriminate | ]. apply IH. lia.
Qed.

Lemma span_digits_length cs : forall ds rest,
  span_digits cs = (ds, rest) ->
  List.length ds + List.length rest = List.length cs.
Proof.
  induction cs as [ | c cs IH]; intros ds rest H; simpl in H.
  - inversion H; subst. reflexivity.
  - destruct (is_digit c).
    + destruct (span_digits cs) as [ds' rest'] eqn:E. inversion H; subst.
      specialize (IH ds' rest eq_refl). simpl. lia.
    + inversion H; subst. reflexivity.
Qed.

Lemma parse_exponent_length cs e rest :
  parse_exponent cs = Some (e, rest) -> List.length rest <= List.length cs.
Proof.
  unfold parse_exponent. intros H.
  repeat (break; try discriminate);
    repeat match goal with
           | E : span_digits _ = _ |- _ => apply span_digits_length in E
           | E : Some _ = Some _ |- _ => inversion E; clear E; subst
           | E : (_, _) = (_, _) |- _ => inversion E; clear E; subst
           end; simpl in *; lia.
Qed.

Lemma parse_fraction_length cs fp rest :
  parse_fraction cs = Some (fp, rest) -> List.length rest <= List.length cs.
Proof.
  unfold parse_fraction. intros H.
  repeat (break; try discriminate);
    repeat match goal with
           | E : span_digits _ = _ |- _ => apply span_digits_length in E
           | E : Some _ = Some _ |- _ => inversion E; clear E; subst
           end; simpl in *; lia.
Qed.

Lemma parse_number_length cs v rest :
  parse_number cs = Some (v, rest) -> List.length rest < List.length cs.
Proof.
  unfold parse_number. intros H.
  repeat (break; try discriminate);
    repeat match goal with
           | E : span_digits _ = _ |- _ => apply span_digits_length in E
           | E : parse_fraction _ = Some _ |- _ => apply parse_fraction_length in E
           | E : parse_exponent _ = Some _ |- _ => apply parse_exponent_length in E
           | E : Some _ = Some _ |- _ => inversion E; clear E; subst
           | E : (_, _) = (_, _) |- _ => inversion E; clear E; subst
           end; simpl in *; lia.
Qed.

Lemma strip_prefix_length word : forall cs rest,
  strip_prefix word cs = Some rest ->
  List.length word + List.length rest = List.length cs.
Proof.
  induction word as [ | x word IH]; intros cs rest H; simpl in H.
  - inversion H; subst. reflexivity.
  - destruct cs as [ | c cs]; [discriminate | ].
    destruct (code x =? code c)%Z; [ | discriminate].
    apply IH in H. simpl. lia.
Qed.

Lemma literal_length word v cs v' rest :
  literal word v cs = Ok v' rest ->
  List.length (list_ascii_of_string word) + List.length rest = List.length cs.
Proof.
  unfold literal. destruct (strip_prefix _ cs) as [r | ] eqn:E; [ | discriminate].
  intros H. inversion H; subst. now apply strip_prefix_length.
Qed.

Lemma number_length cs v rest :
  number cs = Ok v rest -> List.length rest < List.length cs.
Proof.
  unfold number. destruct (parse_number cs) as [[v' r] | ] eqn:E; [ | discriminate].
  intros H. inversion H; subst. now apply parse_number_length in E.
Qed.

Ltac lengths :=
  repeat match goal with
         | E : skip_ws _ = _ :: _ |- _ => apply skip_ws_cons in E
         | E : parse_chars _ _ _ = Ok _ _ |- _ => apply parse_chars_length in E
         | E : literal _ _ _ = Ok _ _ |- _ => apply literal_length in E
         | E : number _ = Ok _ _ |- _ => apply number_length in E
         | E : Ok _ _ = Ok _ _ |- _ => inversion E; clear E; subst
         end.

(** Every successful parser consumes input. *)
Lemma parsers_consume fuel :
  (forall cs v rest,
      parse_value fuel cs = Ok v rest -> List.length rest < List.length cs) /\
  (forall cs acc v rest,
      parse_elements fuel cs acc = Ok v rest -> List.length rest < List.length cs) /\
  (forall cs acc v rest,
      parse_members fuel cs acc = Ok v rest -> List.length rest < List.length cs).
Proof.
  induction fuel as [ | fuel (IHv & IHe & IHm)];
    [repeat split; intros; discriminate | ].
  repeat split.
  - intros cs v rest H. simpl in H.
    repeat (break; try discriminate);
      repeat match goal with
             | E : parse_elements fuel _ _ = Ok _ _ |- _ => apply IHe in E
             | E : parse_members fuel _ _ = Ok _ _ |- _ => apply IHm in E
             end; lengths; simpl in *; lia.
  - intros cs acc v rest H. simpl in H.
    repeat (break; try discriminate);
      repeat match goal with
             | E : parse_value fuel _ = Ok _ _ |- _ => apply IHv in E
             | E : parse_elements fuel _ _ = Ok _ _ |- _ => apply IHe in E
             end; lengths; simpl in *; lia.
  - intros cs acc v rest H. simpl in H.
    repeat (break; try discriminate);
      repeat match goal with
             | E : parse_value fuel _ = Ok _ _ |- _ => apply IHv in E
             | E : parse_members fuel _ _ = Ok _ _ |- _ => apply IHm in E
             end; lengths; simpl in *; lia.
Qed.

Ltac break_goal :=
  match goal with
  | |- context [match ?x with _ => _ end] => destruct x eqn:?
  | |- context [if ?x then _ else _] => destruct x eqn:?
  end.

(** With two units of fuel per character, and one or two to spare, no
    parser runs out. *)
Lemma parsers_fed fuel :
  (forall cs, 2 * List.length cs + 1 <= fuel -> parse_value fuel cs <> Starved) /\
  (forall cs acc,
      2 * List.length cs + 2 <= fuel -> parse_elements fuel cs acc <> Starved) /\
  (forall cs acc,
      2 * List.length cs + 2 <= fuel -> parse_members fuel cs acc <> Starved).
Proof.
  induction fuel as [ | fuel (IHv & IHe & IHm)]; [repeat split; intros; lia | ].
  destruct (parsers_consume fuel) as (Cv & Ce & Cm).
  assert (F : forall A (x : Parsed A), x = Starved -> x <> Starved -> False)
    by (intros A x E N; exact (N E)).
  repeat split; intros; simpl; unfold literal, number;
    repeat (break_goal; try discriminate);
    repeat match goal with
           | E : parse_value fuel _ = Ok _ _ |- _ => apply Cv in E
           end;
    first [ apply IHe | apply IHm
          | match goal with
            | E : parse_chars _ _ _ = Starved |- _ =>
                exfalso; apply (F _ _ E); apply parse_chars_fed
            | E : parse_value _ _ = Starved |- _ =>
                exfalso; apply (F _ _ E); apply IHv
            end ];
    lengths; simpl in *; lia.
Qed.

(** [JSON.parse] never answers for lack of fuel: when it yields
    nothing, the text is not JSON. *)
Theorem parse_value_fed cs : parse_value (enough cs) cs <> Starved.
Proof. apply (parsers_fed (enough cs)). unfold enough. lia. Qed.
End JSONFacts.

Example parse_empty_object : JSON.parse "{}" = Some (JObj []).
Proof. reflexivity. Qed.

Example parse_nested :
  JSON.parse (" { " +++ quoted "a" +++ " : [1, 2.50, -3e2, true, null, "
              +++ quoted "xA\n" +++ "] } ")
  = Some (JObj [("a", JArr [JNum 1 0; JNum 25 (-1); JNum (-3) 2; JBool true; JNull;
                             JStr ("xA" +++ newline)])]).
Proof. reflexivity. Qed.

Example parse_rejects_prose : JSON.parse "Service unavailable" = None.
Proof. reflexivity. Qed.

Example parse_rejects_trailing_comma : JSON.parse "[1,]" = None.
Proof. reflexivity. Qed.

Example toISOString_epoch : toISOString 0 = Some "1970-01-01T00:00:00.000Z".
Proof. reflexivity. Qed.

Example toISOString_sample :
  toISOString 1700000000123 = Some "2023-11-14T22:13:20.123Z".
Proof. reflexivity. Qed.

Example toISOString_out_of_range : toISOString 8640000000000001 = None.
Proof. reflexivity. Qed.

Example request_contents :
  match analyzeNFCLogs_request sample_logs with
  | Fulfilled req =>
      contents req =
      "Analyze the following NFC transaction logs for security vulnerabilities like PIN bypass, transaction forcing, or relay attacks. "
      +++ newline +++ "    Logs:" +++ newline
      +++ "    [2023-11-14T22:13:20.000Z] INFO: NFC Controller initialized. Listening for targets..."
  | Rejected _ => False
  end.
Proof. reflexivity. Qed.

Example sample_run :
  let s := exec startSimulation (sample_world (Responds None)) boot in
  map id (logs (app s)) = ["i"; "9"; "r"; "4i"; "mi"; "vi"; "29"] /\
  map level (logs (app s)) = [INFO; SUCCESS; WARNING; SUCCESS; INFO; INFO; SUCCESS] /\
  selectedAmount (app s) = 95 /\
  option_map message (nth_error (logs (app s)) 4)
  = Some "Force-selecting withdrawal amount: $95" /\
  option_map message (nth_error (logs (app s)) 6)
  = Some "Simulation complete. Transaction accepted by mock gateway. Total: $95".
Proof. vm_compute. repeat split. Qed.

(** ** The analysis requester *)

Lemma parse_empty_text : JSON.parse EmptyString = None.
Proof. reflexivity. Qed.

Lemma text_or_nonempty text default :
  text <> EmptyString -> text_or (Some text) default = text.
Proof. destruct text; [congruence | reflexivity]. Qed.

Lemma parsed_text_nonempty text v : JSON.parse text = Some v -> text <> EmptyString.
Proof. intros H ->. rewrite parse_empty_text in H. discriminate. Qed.

Lemma run_settles svc logs req :
  analyzeNFCLogs_request logs = Fulfilled req ->
  analyzeNFCLogs svc logs = analyzeNFCLogs_settle (svc req).
Proof. unfold analyzeNFCLogs. now intros ->. Qed.

(** C1, as the code has it: when the service call itself fails,
    [analyzeNFCLogs] rejects with the same error, which reaches its
    caller; when the call answers with a text that [JSON.parse] refuses
    (the text being replaced by an empty object literal when it is absent
    or empty), it returns the fixed fallback record and throws nothing. *)
Theorem analyzeNFCLogs_on_failure svc logs req :
  analyzeNFCLogs_request logs = Fulfilled req ->
  fails (svc req) = true ->
  analyzeNFCLogs svc logs =
    match svc req with
    | Rejects reason => Rejected reason
    | Responds _ => Fulfilled fallback
    end.
Proof.
  intros Hreq Hfail. rewrite (run_settles _ _ _ Hreq).
  unfold fails in Hfail. unfold analyzeNFCLogs_settle.
  destruct (svc req) as [text | reason]; [ | reflexivity].
  destruct (JSON.parse (text_or text "{}")); [discriminate | reflexivity].
Qed.

Lemma analyzeNFCLogs_on_failure_witness :
  fails (Responds (Some "Service unavailable")) = true /\
  analyzeNFCLogs (fun _ => Responds (Some "Service unavailable")) sample_logs
  = Fulfilled fallback.
Proof.
  destruct (analyzeNFCLogs_request sample_logs) as [req | reason] eqn:Hreq;
    [ | discriminate Hreq].
  split; [reflexivity | ].
  apply (analyzeNFCLogs_on_failure
           (fun _ => Responds (Some "Service unavailable")) sample_logs req Hreq).
  reflexivity.
Defined.

(** C1 as stated fails: a rejected service call is not turned into the
    fallback record, the rejection leaves [analyzeNFCLogs]. *)
Lemma analyzeNFCLogs_rejection_escapes :
  fails (Rejects "fetch failed") = true /\
  analyzeNFCLogs (fun _ => Rejects "fetch failed") sample_logs
  = Rejected "fetch failed" /\
  analyzeNFCLogs (fun _ => Rejects "fetch failed") sample_logs
  <> Fulfilled fallback.
Proof. repeat split. discriminate. Qed.

(** The caller's [catch] block takes the rejection: an ERROR entry is
    appended and the analysis result stays as it was. *)
Lemma handleAnalyze_catches_rejection w s n req reason :
  generateContent w n req = Rejects reason ->
  let s' := exec (handleAnalyze_settled (Awaiting n req)) w s in
  analysis (app s') = analysis (app s) /\
  logs (app s') = logs (app s) ++
                  [new_entry w s "Failed to analyze logs with Gemini." ERROR None] /\
  isAnalyzing (app s') = false.
Proof.
  intros H. unfold exec, handleAnalyze_settled. rewrite H. repeat split.
Qed.

(** C9: whenever the service call made for a non-empty log sequence
    answers with a text that parses to a payload satisfying the schema,
    [analyzeNFCLogs] returns that very payload. *)
Theorem analyzeNFCLogs_returns_payload svc logs req text v :
  logs <> [] ->
  analyzeNFCLogs_request logs = Fulfilled req ->
  svc req = Responds (Some text) ->
  JSON.parse text = Some v ->
  schema_valid v = true ->
  analyzeNFCLogs svc logs = Fulfilled v.
Proof.
  intros _ Hreq Hsvc Hparse _.
  rewrite (run_settles _ _ _ Hreq), Hsvc. unfold analyzeNFCLogs_settle.
  rewrite (text_or_nonempty _ _ (parsed_text_nonempty _ _ Hparse)), Hparse.
  reflexivity.
Qed.

Lemma analyzeNFCLogs_returns_payload_witness :
  schema_valid (AnalysisResult (JNum 85 0) "Relay Attack" ["Enforce online PIN"]
                               "CVM downgrade observed.") = true /\
  analyzeNFCLogs (fun _ => Responds (Some sample_payload)) sample_logs
  = Fulfilled (AnalysisResult (JNum 85 0) "Relay Attack" ["Enforce online PIN"]
                              "CVM downgrade observed.").
Proof.
  destruct (analyzeNFCLogs_request sample_logs) as [req | reason] eqn:Hreq;
    [ | discriminate Hreq].
  split; [reflexivity | ].
  apply (analyzeNFCLogs_returns_payload
           (fun _ => Responds (Some sample_payload)) sample_logs req sample_payload).
  - discriminate.
  - exact Hreq.
  - reflexivity.
  - reflexivity.
  - reflexivity.
Defined.

(** ** reset and analyze on an empty log *)

(** C5: whatever the state before, [resetSimulator] leaves the attack
    state idle, the log sequence empty, the analysis result absent and the
    selected amount zero. *)
Theorem resetSimulator_clears w s :
  let a := app (exec resetSimulator w s) in
  state a = IDLE /\ logs a = [] /\ analysis a = JNull /\ selectedAmount a = 0.
Proof. repeat split. Qed.

(** C7: [handleAnalyze] on an empty log sequence returns at once: no
    request is issued, no task is left waiting, and every cell, the
    analysis result included, is as before. *)
Theorem handleAnalyze_empty_is_noop w s :
  logs (app s) = [] ->
  eval handleAnalyze w s = None /\
  exec handleAnalyze w s = s /\
  calls (exec handleAnalyze w s) = calls s /\
  analysis (app (exec handleAnalyze w s)) = analysis (app s).
Proof.
  intros H. unfold eval, exec, handleAnalyze, bind, render. rewrite H.
  repeat split.
Qed.

Lemma handleAnalyze_empty_is_noop_witness :
  eval handleAnalyze constant_world boot = None /\
  exec handleAnalyze constant_world boot = boot /\
  calls (exec handleAnalyze constant_world boot) = calls boot /\
  analysis (app (exec handleAnalyze constant_world boot)) = analysis (app boot).
Proof. apply (handleAnalyze_empty_is_noop constant_world boot). reflexivity. Defined.

(** ** The log store *)

Lemma addLog_exec w s message lvl d :
  exec (addLog message lvl d) w s =
  {| app := store (SetLogs (logs (app s) ++ [new_entry w s message lvl d])) (app s);
     draws := S (draws s); readings := S (readings s); calls := calls s;
     history := history s ++ [SetLogs (logs (app s) ++ [new_entry w s message lvl d])] |}.
Proof. reflexivity. Qed.

Lemma bind_exec {A B} (c : M A) (k : A -> M B) w s :
  exec (bind c k) w s = exec (k (eval c w s)) w (exec c w s).
Proof. unfold exec, eval, bind. destruct (c w s). reflexivity. Qed.

Lemma bind_eval {A B} (c : M A) (k : A -> M B) w s :
  eval (bind c k) w s = eval (k (eval c w s)) w (exec c w s).
Proof. unfold exec, eval, bind. destruct (c w s). reflexivity. Qed.

Lemma extends_ret {A} (a : A) : extends (ret a).
Proof. intros w s. exists []. symmetry. apply app_nil_r. Qed.

Lemma extends_bind {A B} (c : M A) (k : A -> M B) :
  extends c -> (forall a, extends (k a)) -> extends (bind c k).
Proof.
  intros Hc Hk w s. rewrite bind_exec.
  destruct (Hc w s) as [l1 H1].
  destruct (Hk (eval c w s) w (exec c w s)) as [l2 H2].
  exists (l1 ++ l2). rewrite H2, H1. symmetry. apply app_assoc.
Qed.

Lemma extends_addLog message lvl d : extends (addLog message lvl d).
Proof. intros w s. eexists. rewrite addLog_exec. reflexivity. Qed.

Lemma extends_setState v : extends (setState v).
Proof. intros w s. exists []. symmetry. apply app_nil_r. Qed.

Lemma extends_setSelectedAmount v : extends (setSelectedAmount v).
Proof. intros w s. exists []. symmetry. apply app_nil_r. Qed.

Lemma extends_setAnalysis v : extends (setAnalysis v).
Proof. intros w s. exists []. symmetry. apply app_nil_r. Qed.

Lemma extends_setIsAnalyzing v : extends (setIsAnalyzing v).
Proof. intros w s. exists []. symmetry. apply app_nil_r. Qed.

Lemma extends_random : extends random.
Proof. intros w s. exists []. symmetry. apply app_nil_r. Qed.

Lemma extends_render : extends render.
Proof. intros w s. exists []. symmetry. apply app_nil_r. Qed.

Lemma extends_call_service : extends call_service.
Proof. intros w s. exists []. symmetry. apply app_nil_r. Qed.

Create HintDb append_only.
#[local] Hint Resolve extends_ret extends_bind extends_addLog extends_setState
  extends_setSelectedAmount extends_setAnalysis extends_setIsAnalyzing
  extends_random extends_render extends_call_service : append_only.

Lemma extends_startSimulation_begin : extends startSimulation_begin.
Proof. unfold startSimulation_begin. auto 10 with append_only. Qed.

Lemma extends_startSimulation_resume r : extends (startSimulation_resume r).
Proof. destruct r; unfold startSimulation_resume; auto 12 with append_only. Qed.

Lemma extends_handleAnalyze : extends handleAnalyze.
Proof.
  unfold handleAnalyze. apply extends_bind; [auto with append_only | ].
  intros a. destruct (List.length (logs a) =? 0)%nat; [auto with append_only | ].
  apply extends_bind; [auto with append_only | ]. intros _.
  destruct (analyzeNFCLogs_request (logs a)); auto 8 with append_only.
Qed.

Lemma extends_handleAnalyze_settled p : extends (handleAnalyze_settled p).
Proof.
  intros w s. destruct p as [n req].
  assert (H : extends
    (match analyzeNFCLogs_settle (generateContent w n req) with
     | Fulfilled result =>
         setAnalysis result ;; addLog "Gemini AI Analysis complete." SUCCESS None
     | Rejected _ => addLog "Failed to analyze logs with Gemini." ERROR None
     end ;; setIsAnalyzing false)).
  { destruct (analyzeNFCLogs_settle (generateContent w n req));
      auto 8 with append_only. }
  exact (H w s).
Qed.

Lemma fire_extends w e m m' :
  fire w e m = Some m' -> e <> ClickReset ->
  exists added, logs (app (st m')) = logs (app (st m)) ++ added.
Proof.
  intros H He. destruct e as [ | | | i]; unfold fire in H.
  - destruct (start_enabled (app (st m))); [ | discriminate].
    pose proof (extends_startSimulation_begin w (st m)) as E. unfold exec in E.
    destruct (startSimulation_begin w (st m)) as [r s']. inversion H; subst. exact E.
  - destruct (analyze_enabled (app (st m))); [ | discriminate].
    pose proof (extends_handleAnalyze w (st m)) as E. unfold exec in E.
    destruct (handleAnalyze w (st m)) as [p s']. inversion H; subst. exact E.
  - congruence.
  - destruct (nth_error (tasks m) i) as [[r | p] | ]; [ | | discriminate].
    + pose proof (extends_startSimulation_resume r w (st m)) as E. unfold exec in E.
      destruct (startSimulation_resume r w (st m)) as [next s']. inversion H; subst. exact E.
    + inversion H; subst. apply extends_handleAnalyze_settled.
Qed.

Lemma fire_all_extends w es : forall m m',
  fire_all w es m = Some m' -> ~ In ClickReset es ->
  exists added, logs (app (st m')) = logs (app (st m)) ++ added.
Proof.
  induction es as [ | e es IH]; intros m m' H Hno; simpl in H.
  - inversion H; subst. exists []. symmetry. apply app_nil_r.
  - destruct (fire w e m) as [m1 | ] eqn:F; [ | discriminate].
    destruct (fire_extends w e m m1 F) as [l1 H1].
    { intros ->. apply Hno. now left. }
    destruct (IH m1 m' H) as [l2 H2].
    { intros Hin. apply Hno. now right. }
    exists (l1 ++ l2). rewrite H2, H1. symmetry. apply app_assoc.
Qed.

(** C6: [addLog] makes the log sequence exactly one longer, keeps every
    earlier entry at its position and puts the new entry last; and over
    any succession of events without a reset, the log sequence only
    grows at its end. *)
Theorem log_is_append_only w s message lvl d es m m' :
  fire_all w es m = Some m' ->
  ~ In ClickReset es ->
  let before := logs (app s) in
  let after := logs (app (exec (addLog message lvl d) w s)) in
  (after = before ++ [new_entry w s message lvl d] /\
   List.length after = S (List.length before) /\
   firstn (List.length before) after = before /\
   nth_error after (List.length before) = Some (new_entry w s message lvl d)) /\
  exists added, logs (app (st m')) = logs (app (st m)) ++ added.
Proof.
  intros H Hno before after. split; [ | exact (fire_all_extends w es m m' H Hno)].
  subst before after. rewrite addLog_exec. simpl. repeat split.
  - rewrite length_app. simpl. lia.
  - rewrite firstn_app, Nat.sub_diag, firstn_all. simpl. apply app_nil_r.
  - rewrite nth_error_app2, Nat.sub_diag; [reflexivity | lia].
Qed.

Lemma log_is_append_only_witness :
  match fire_all (sample_world (Responds None))
                 [ClickStart; Wake 0; ClickAnalyze; Wake 0; Wake 0] power_on with
  | Some m' => exists added, logs (app (st m')) = logs (app (st power_on)) ++ added
  | None => False
  end.
Proof.
  destruct (fire_all (sample_world (Responds None))
                     [ClickStart; Wake 0; ClickAnalyze; Wake 0; Wake 0] power_on)
    as [m' | ] eqn:H; [ | vm_compute in H; discriminate H].
  refine (proj2 (log_is_append_only (sample_world (Responds None)) boot
                   "Gemini AI Analysis complete." SUCCESS None _ _ _ H _)).
  simpl. intros [E | [E | [E | [E | [E | []]]]]]; discriminate E.
Defined.

(** ** The scripted run *)

(** Unfold the handlers and the state monad down to the cells. *)
Ltac run_handlers :=
  cbv [exec eval startSimulation startSimulation_begin startSimulation_resume
       startSimulation_resume_next bind ret snd fst addLog setState setLogs setAnalysis setSelectedAmount
       setIsAnalyzing write random now store new_entry
       app history draws readings calls
       state logs selectedAmount analysis isAnalyzing message].

Lemma state_writes_app h1 h2 :
  state_writes (h1 ++ h2) = state_writes h1 ++ state_writes h2.
Proof.
  induction h1 as [ | x h1 IH]; [reflexivity | ].
  destruct x; simpl; rewrite IH; reflexivity.
Qed.

Lemma startSimulation_history w s :
  exists l1 l2 l3 l4 l5 l6 l7,
    history (exec startSimulation w s) =
    history s ++
    [SetAnalysis JNull; SetState SCANNING; SetLogs l1;
     SetState CARD_DETECTED; SetLogs l2;
     SetState PIN_BYPASS; SetLogs l3;
     SetLogs l4; SetState AMOUNT_SELECTION;
     SetSelectedAmount (times200_floor (Math_random w (4 + draws s)) + 20);
     SetLogs l5;
     SetState TRANSACTION_PROCESSING; SetLogs l6;
     SetState COMPLETED; SetLogs l7].
Proof.
  do 7 eexists. run_handlers. rewrite <- !app_assoc. reflexivity.
Qed.

(** The composite: the six stretches with nothing between them append
    seven entries, end in the completed state, and carry the amount drawn
    at the amount-selection step into the selected amount, the fifth
    message and the last message. *)
Lemma startSimulation_composite_outcome w s :
  let s' := exec startSimulation w s in
  let amount := times200_floor (Math_random w (4 + draws s)) + 20 in
  eval startSimulation w s = None /\
  state (app s') = COMPLETED /\
  selectedAmount (app s') = amount /\
  List.length (logs (app s')) = (List.length (logs (app s)) + 7)%nat /\
  exists e1 e2 e3 e4 e5 e6 e7,
    logs (app s') = logs (app s) ++ [e1; e2; e3; e4; e5; e6; e7] /\
    message e5 = "Force-selecting withdrawal amount: $" +++ show amount /\
    message e7 =
      "Simulation complete. Transaction accepted by mock gateway. Total: $"
      +++ show amount.
Proof.
  intros s' amount.
  assert (L : exists e1 e2 e3 e4 e5 e6 e7,
    logs (app s') = logs (app s) ++ [e1; e2; e3; e4; e5; e6; e7] /\
    message e5 = "Force-selecting withdrawal amount: $" +++ show amount /\
    message e7 =
      "Simulation complete. Transaction accepted by mock gateway. Total: $"
      +++ show amount).
  { do 7 eexists. subst s' amount. run_handlers.
    rewrite <- !app_assoc. repeat split. }
  repeat split; try exact L.
  destruct L as (e1 & e2 & e3 & e4 & e5 & e6 & e7 & -> & _).
  rewrite length_app. reflexivity.
Qed.

(** C2 as stated fails: from the idle initial state the run leaves seven
    entries in the log sequence, not six. *)
Lemma startSimulation_leaves_seven_entries :
  state (app boot) = IDLE /\
  state (app (exec startSimulation (sample_world (Responds None)) boot)) = COMPLETED /\
  List.length (logs (app (exec startSimulation (sample_world (Responds None)) boot)))
  <> 6%nat.
Proof. repeat split. intros H. vm_compute in H. discriminate H. Qed.

Lemma safe_ret {A} (a : A) : safe (ret a).
Proof. intros w s H. exact H. Qed.

Lemma safe_bind {A B} (c : M A) (k : A -> M B) :
  safe c -> (forall a, safe (k a)) -> safe (bind c k).
Proof. intros Hc Hk w s H. rewrite bind_exec. apply Hk, Hc, H. Qed.

Lemma safe_setState v : v <> FAILED -> safe (setState v).
Proof.
  intros Hv w s [H1 H2]. split; [exact Hv | ].
  simpl. rewrite state_writes_app, in_app_iff. simpl. intuition congruence.
Qed.

Lemma safe_other_write x :
  (forall v, x <> SetState v) -> safe (write x).
Proof.
  intros Hx w s [H1 H2]. split.
  - destruct x; try exact H1. now destruct (Hx v).
  - simpl. rewrite state_writes_app, in_app_iff.
    destruct x; simpl; try tauto. now destruct (Hx v).
Qed.

Lemma safe_setLogs f : safe (setLogs f).
Proof.
  intros w s H.
  refine (safe_other_write (SetLogs (f (logs (app s)))) _ w s H). discriminate.
Qed.

Lemma safe_setSelectedAmount v : safe (setSelectedAmount v).
Proof. apply safe_other_write. discriminate. Qed.

Lemma safe_setAnalysis v : safe (setAnalysis v).
Proof. apply safe_other_write. discriminate. Qed.

Lemma safe_setIsAnalyzing v : safe (setIsAnalyzing v).
Proof. apply safe_other_write. discriminate. Qed.

Lemma safe_random : safe random.
Proof. intros w s H. exact H. Qed.

Lemma safe_now : safe now.
Proof. intros w s H. exact H. Qed.

Lemma safe_render : safe render.
Proof. intros w s H. exact H. Qed.

Lemma safe_call_service : safe call_service.
Proof. intros w s H. exact H. Qed.

Lemma safe_addLog message lvl d : safe (addLog message lvl d).
Proof.
  unfold addLog. apply safe_bind; [apply safe_random | intros r].
  apply safe_bind; [apply safe_now | intros t]. apply safe_setLogs.
Qed.

Create HintDb never_failed.
#[local] Hint Resolve safe_ret safe_bind safe_setState safe_setLogs
  safe_setSelectedAmount safe_setAnalysis safe_setIsAnalyzing safe_random
  safe_now safe_render safe_call_service safe_addLog : never_failed.
#[local] Hint Extern 1 (_ <> FAILED) => discriminate : never_failed.








Lemma fire_all_reachable w es : forall m m',
  reachable w m -> fire_all w es m = Some m' -> reachable w m'.
Proof.
  induction es as [ | e es IH]; intros m m' R H; simpl in H.
  - inversion H; subst. exact R.
  - destruct (fire w e m) as [m1 | ] eqn:F; [ | discriminate].
    apply (IH m1 m'); [ | exact H]. exact (reach_fire w e m m1 R F).
Qed.

Lemma analysis_writes_app h1 h2 :
  analysis_writes (h1 ++ h2) = analysis_writes h1 ++ analysis_writes h2.
Proof.
  induction h1 as [ | x h1 IH]; [reflexivity | ].
  destruct x; simpl; rewrite IH; reflexivity.
Qed.

(** C10: the first setter [startSimulation] calls is [setAnalysis(null)],
    before its first [setState] and its first [addLog]; when it suspends
    the analysis result is absent; and the rest of the run calls
    [setAnalysis] no more. *)
Theorem startSimulation_clears_analysis_first w s :
  history (exec startSimulation_begin w s) =
    history s ++
    [SetAnalysis JNull; SetState SCANNING;
     SetLogs (logs (app s) ++
              [new_entry w s "NFC Controller initialized. Listening for targets..."
                         INFO None])] /\
  analysis (app (exec startSimulation_begin w s)) = JNull /\
  exists later,
    history (exec startSimulation w s) = history s ++ SetAnalysis JNull :: later /\
    analysis_writes later = [] /\
    analysis (app (exec startSimulation w s)) = JNull.
Proof.
  split; [ | split].
  - run_handlers. rewrite <- !app_assoc. reflexivity.
  - reflexivity.
  - destruct (startSimulation_history w s)
      as (l1 & l2 & l3 & l4 & l5 & l6 & l7 & ->).
    eexists. split; [reflexivity | ]. split; reflexivity.
Qed.

(** ** Identifiers and timestamps *)

Lemma addLogs_cons message lvl d rest w s :
  exec (addLogs ((message, lvl, d) :: rest)) w s
  = exec (addLogs rest) w (exec (addLog message lvl d) w s).
Proof. reflexivity. Qed.

(** C8, as the code has it: the entries created by a sequence of calls of
    [addLog] are added at the end in call order; the identifier of each is
    the nine-character slice of the base-36 print of the draw made at its
    creation, and its timestamp is the clock reading made at its creation.
    Identifiers are therefore distinct exactly when those slices are,
    which the draws need not be. *)
Theorem addLogs_identifiers_and_timestamps w items : forall s,
  exists entries,
    logs (app (exec (addLogs items) w s)) = logs (app s) ++ entries /\
    map id entries =
      map (fun k => fresh_id (Math_random w (draws s + k)))
          (seq 0 (List.length items)) /\
    map timestamp entries =
      map (fun k => Date_now w (readings s + k)) (seq 0 (List.length items)).
Proof.
  induction items as [ | [[message lvl] d] rest IH]; intros s.
  - exists []. repeat split. symmetry. apply app_nil_r.
  - rewrite addLogs_cons.
    destruct (IH (exec (addLog message lvl d) w s)) as (entries & L & I & T).
    exists (new_entry w s message lvl d :: entries). split; [ | split].
    + rewrite L, addLog_exec. simpl. rewrite <- app_assoc. reflexivity.
    + simpl. rewrite Nat.add_0_r. f_equal.
      rewrite I, <- seq_shift, map_map, addLog_exec. simpl.
      apply map_ext. intros k. now rewrite Nat.add_succ_r.
    + simpl. rewrite Nat.add_0_r. f_equal.
      rewrite T, <- seq_shift, map_map, addLog_exec. simpl.
      apply map_ext. intros k. now rewrite Nat.add_succ_r.
Qed.

(** C8 as stated fails: two draws with the same print give the second
    entry the identifier of the first. *)
Lemma addLog_identifier_collision :
  map id (logs (app after_first)) = ["i"] /\
  id (new_entry constant_world after_first "second" INFO None) = "i" /\
  In (id (new_entry constant_world after_first "second" INFO None))
     (map id (logs (app after_first))) /\
  map id (logs (app after_second)) = ["i"; "i"] /\
  ~ NoDup (map id (logs (app after_second))).
Proof.
  repeat split; [now left | ].
  intros H. inversion H as [ | x l Hin _]. apply Hin. now left.
Qed.

(** ** The analysis result in reachable states *)

(** C3 fails on the code: after a run and a click on analyze, a service
    answer without text leaves an object with none of the four
    properties in the analysis cell, and an answer that carries one
    property leaves an object with that property alone. *)
Theorem partial_analysis_is_reachable :
  (exists m, reachable (sample_world (Responds None)) m /\
             analysis (app (st m)) = JObj [] /\
             analysis (app (st m)) <> JNull /\
             complete (analysis (app (st m))) = false) /\
  (exists m, reachable (sample_world (Responds (Some truncated_payload))) m /\
             analysis (app (st m)) = JObj [("vulnerabilityScore", JNum 5 1)] /\
             complete (analysis (app (st m))) = false).
Proof.
  split.
  - destruct (fire_all (sample_world (Responds None))
                [ClickStart; Wake 0; Wake 0; Wake 0; Wake 0; Wake 0;
                 ClickAnalyze; Wake 0] power_on) as [m | ] eqn:H;
      [ | vm_compute in H; discriminate H].
    exists m. split; [exact (fire_all_reachable _ _ _ _ (reach_power_on _) H) | ].
    vm_compute in H. inversion H; subst. repeat split. discriminate.
  - destruct (fire_all (sample_world (Responds (Some truncated_payload)))
                [ClickStart; Wake 0; Wake 0; Wake 0; Wake 0; Wake 0;
                 ClickAnalyze; Wake 0] power_on) as [m | ] eqn:H;
      [ | vm_compute in H; discriminate H].
    exists m. split; [exact (fire_all_reachable _ _ _ _ (reach_power_on _) H) | ].
    vm_compute in H. inversion H; subst. repeat split.
Qed.


(** * Further properties *)

(** ** [generateDefensiveCode] *)


(** ** [StatusBadge] *)

Lemma replace_underscores_length text :
  String.length (StatusBadge.replace_underscores text) = String.length text.
Proof. induction text as [ | c text IH]; simpl; [reflexivity | now rewrite IH]. Qed.

(** X2: replacing the underscores keeps the length of the text, leaves no
    underscore, touches no other character, and doing it twice changes
    nothing more. *)
Theorem replace_underscores_spec text :
  String.length (StatusBadge.replace_underscores text) = String.length text /\
  ~ In "_"%char (list_ascii_of_string (StatusBadge.replace_underscores text)) /\
  (forall n, String.get n (StatusBadge.replace_underscores text) =
             option_map (fun c => if Ascii.eqb c "_" then " "%char else c)
                        (String.get n text)) /\
  StatusBadge.replace_underscores (StatusBadge.replace_underscores text)
  = StatusBadge.replace_underscores text.
Proof.
  split; [apply replace_underscores_length | ]. split; [ | split].
  - induction text as [ | c text IH]; simpl; [tauto | ].
    intros [H | H]; [ | exact (IH H)].
    destruct (Ascii.eqb c "_") eqn:E; [discriminate H | ].
    subst c. discriminate E.
  - induction text as [ | c text IH]; intros n; simpl; [reflexivity | ].
    destruct n as [ | n]; [reflexivity | apply IH].
  - induction text as [ | c text IH]; simpl; [reflexivity | ].
    rewrite IH. f_equal.
    destruct (Ascii.eqb c "_") eqn:E; [reflexivity | now rewrite E].
Qed.

(** X3: the badge tells the eight states apart, by its colour class and
    by its label alike, and the default colour is never the one shown. *)
Theorem StatusBadge_identifies_state s1 s2 :
  (StatusBadge.color s1 = StatusBadge.color s2 <-> s1 = s2) /\
  (StatusBadge.label s1 = StatusBadge.label s2 <-> s1 = s2) /\
  StatusBadge.color s1 <> "bg-gray-500".
Proof.
  repeat split; try (intros ->; reflexivity);
    destruct s1; try discriminate;
    destruct s2; intros H; try reflexivity; vm_compute in H; discriminate H.
Qed.

(** ** The chart *)

Lemma mapi_from_length {A B} (f : A -> nat -> B) l : forall i,
  List.length (mapi_from f i l) = List.length l.
Proof. induction l as [ | x l IH]; intros i; simpl; [reflexivity | now rewrite IH]. Qed.

Lemma mapi_from_app {A B} (f : A -> nat -> B) l1 l2 : forall i,
  mapi_from f i (l1 ++ l2)
  = mapi_from f i l1 ++ mapi_from f (i + List.length l1) l2.
Proof.
  induction l1 as [ | x l1 IH]; intros i; simpl.
  - now rewrite Nat.add_0_r.
  - rewrite IH. do 3 f_equal. lia.
Qed.

Lemma chart_times l : forall i,
  map time (mapi_from
              (fun (e : LogEntry) k =>
                 {| time := Z.of_nat k;
                    val := match level e with SUCCESS => 100 | _ => 50 end |}) i l)
  = map Z.of_nat (seq i (List.length l)).
Proof. induction l as [ | x l IH]; intros i; simpl; [reflexivity | now rewrite IH]. Qed.

Lemma chart_vals l : forall i,
  map val (mapi_from
             (fun (e : LogEntry) k =>
                {| time := Z.of_nat k;
                   val := match level e with SUCCESS => 100 | _ => 50 end |}) i l)
  = map (fun e => match level e with SUCCESS => 100 | _ => 50 end) l.
Proof. induction l as [ | x l IH]; intros i; simpl; [reflexivity | now rewrite IH]. Qed.

(** X4: the chart has one point per SUCCESS or WARNING entry, in log
    order; the points are numbered 0, 1, 2, ... without gaps, whatever
    their positions in the log, and a point is at 100 for SUCCESS and at
    50 for WARNING. *)
Theorem chartData_shape logs :
  List.length (chartData logs) = List.length (filter charted logs) /\
  (List.length (chartData logs) <= List.length logs)%nat /\
  map time (chartData logs) = map Z.of_nat (seq 0 (List.length (chartData logs))) /\
  map val (chartData logs)
  = map (fun e => match level e with WARNING => 50 | _ => 100 end)
        (filter charted logs).
Proof.
  unfold chartData, mapi. rewrite mapi_from_length. repeat split.
  - apply filter_length_le.
  - apply chart_times.
  - rewrite chart_vals. apply map_ext_in. intros e He.
    apply filter_In in He. destruct He as [_ He]. unfold charted in He.
    destruct (level e); try discriminate; reflexivity.
Qed.

Lemma addLog_logs w s message lvl d :
  logs (app (exec (addLog message lvl d) w s))
  = logs (app s) ++ [new_entry w s message lvl d].
Proof. reflexivity. Qed.

(** X5: an entry added to the log never moves or changes a point already
    drawn: [addLog] leaves the chart as it is for INFO and ERROR, and adds
    one point after the last for SUCCESS (100) and WARNING (50). *)
Theorem chartData_after_addLog w s message lvl d :
  chartData (logs (app (exec (addLog message lvl d) w s)))
  = chartData (logs (app s)) ++
    match lvl with
    | SUCCESS =>
        [{| time := Z.of_nat (List.length (chartData (logs (app s)))); val := 100 |}]
    | WARNING =>
        [{| time := Z.of_nat (List.length (chartData (logs (app s)))); val := 50 |}]
    | _ => []
    end.
Proof.
  rewrite addLog_logs. unfold chartData, mapi.
  rewrite filter_app, mapi_from_app, mapi_from_length. simpl.
  destruct lvl; reflexivity.
Qed.

(** X6: the series handed to the chart is never empty: it is the three
    placeholder points exactly when the log has no SUCCESS and no WARNING
    entry, and the points of the log otherwise. *)
Theorem chart_series_never_empty logs :
  chart_series logs <> [] /\
  chart_series logs =
    match filter charted logs with
    | [] => [{| time := 0; val := 0 |}; {| time := 1; val := 5 |};
             {| time := 2; val := 2 |}]
    | _ :: _ => chartData logs
    end.
Proof.
  unfold chart_series, chartData, mapi. rewrite mapi_from_length.
  destruct (filter charted logs) as [ | e l]; simpl; split;
    try discriminate; reflexivity.
Qed.

(** X7: an uninterrupted run of [startSimulation] adds four points to the
    chart, at 100, 50, 100 and 100, numbered from the number of points
    drawn before. *)
Theorem chartData_after_run w s :
  let n := Z.of_nat (List.length (chartData (logs (app s)))) in
  chartData (logs (app (exec startSimulation w s)))
  = chartData (logs (app s)) ++
    [{| time := n; val := 100 |}; {| time := n + 1; val := 50 |};
     {| time := n + 2; val := 100 |}; {| time := n + 3; val := 100 |}].
Proof.
  intros n. subst n.
  assert (L : exists added,
             logs (app (exec startSimulation w s)) = logs (app s) ++ added /\
             map level added = [INFO; SUCCESS; WARNING; SUCCESS; INFO; INFO; SUCCESS]).
  { eexists. run_handlers. rewrite <- !app_assoc. split; reflexivity. }
  destruct L as (added & -> & Lv).
  unfold chartData, mapi. rewrite filter_app, mapi_from_app, mapi_from_length.
  f_equal. simpl.
  destruct added as [ | e1 [ | e2 [ | e3 [ | e4 [ | e5 [ | e6 [ | e7 [ | ]]]]]]]];
    try discriminate Lv.
  simpl in Lv.
  repeat match goal with
         | H : _ :: _ = _ :: _ |- _ => injection H as ? H
         end.
  simpl. unfold charted.
  repeat match goal with
         | H : level _ = _ |- _ => rewrite H
         end.
  simpl.
  repeat match goal with
         | H : level _ = _ |- _ => rewrite H
         end.
  repeat (f_equal; try lia).
Qed.

(** ** The request and the analyze handler *)

Lemma toISOString_defined t :
  match toISOString t with
  | Some _ => valid_time t
  | None => ~ valid_time t
  end.
Proof.
  unfold toISOString, valid_time.
  destruct (t <? -8640000000000000) eqn:E1;
    destruct (8640000000000000 <? t) eqn:E2; simpl; try lia.
  all: destruct (civil (t / 86400000)) as [[y m] d]; lia.
Qed.

Lemma log_lines_defined logs :
  match log_lines logs with
  | Some lines =>
      Forall (fun e => valid_time (timestamp e)) logs /\
      List.length lines = List.length logs
  | None => Exists (fun e => ~ valid_time (timestamp e)) logs
  end.
Proof.
  induction logs as [ | e logs IH]; simpl; [split; [constructor | reflexivity] | ].
  pose proof (toISOString_defined (timestamp e)) as T.
  destruct (toISOString (timestamp e)) as [iso | ]; [ | now left].
  destruct (log_lines logs) as [lines | ]; [ | now right].
  destruct IH as [F L]. split; [now constructor | simpl; now rewrite L].
Qed.

Lemma request_range logs :
  match analyzeNFCLogs_request logs with
  | Fulfilled req =>
      Forall (fun e => valid_time (timestamp e)) logs /\
      exists lines,
        List.length lines = List.length logs /\
        contents req =
          "Analyze the following NFC transaction logs for security vulnerabilities like PIN bypass, transaction forcing, or relay attacks. "
          +++ newline +++ "    Logs:" +++ newline +++ "    " +++ join newline lines
  | Rejected reason =>
      reason = "RangeError: Invalid time value" /\
      Exists (fun e => ~ valid_time (timestamp e)) logs
  end.
Proof.
  unfold analyzeNFCLogs_request. pose proof (log_lines_defined logs) as H.
  destruct (log_lines logs) as [lines | ].
  - destruct H as [F L]. split; [exact F | ]. exists lines. split; [exact L | reflexivity].
  - split; [reflexivity | exact H].
Qed.

(** X8: [analyzeNFCLogs] builds its request exactly when every timestamp
    of the log is a time value that [Date] can print; the prompt then
    carries one line per entry.  Otherwise it fails with a [RangeError]
    before any call is made. *)
Theorem analyzeNFCLogs_request_range logs :
  match analyzeNFCLogs_request logs with
  | Fulfilled req =>
      Forall (fun e => valid_time (timestamp e)) logs /\
      exists lines,
        List.length lines = List.length logs /\
        contents req =
          "Analyze the following NFC transaction logs for security vulnerabilities like PIN bypass, transaction forcing, or relay attacks. "
          +++ newline +++ "    Logs:" +++ newline +++ "    " +++ join newline lines
  | Rejected reason =>
      reason = "RangeError: Invalid time value" /\
      Exists (fun e => ~ valid_time (timestamp e)) logs
  end.
Proof. exact (request_range logs). Qed.

Lemma handleAnalyze_settled_cells w s n req :
  let s' := exec (handleAnalyze_settled (Awaiting n req)) w s in
  let returned :=
    match generateContent w n req with Responds _ => true | Rejects _ => false end in
  logs (app s') =
    logs (app s) ++
    [new_entry w s
       (if returned then "Gemini AI Analysis complete."
        else "Failed to analyze logs with Gemini.")
       (if returned then SUCCESS else ERROR) None] /\
  analysis (app s') =
    match analyzeNFCLogs_settle (generateContent w n req) with
    | Fulfilled result => result
    | Rejected _ => analysis (app s)
    end /\
  isAnalyzing (app s') = false /\
  state (app s') = state (app s) /\
  selectedAmount (app s') = selectedAmount (app s) /\
  calls s' = calls s.
Proof.
  unfold exec, handleAnalyze_settled, analyzeNFCLogs_settle.
  destruct (generateContent w n req) as [text | reason]; [ | repeat split].
  destruct (JSON.parse (text_or text "{}")); repeat split.
Qed.

(** X9: when the service call settles, [handleAnalyze] appends exactly
    one entry, a SUCCESS entry whenever the call returned (also when its
    text could not be parsed and the fallback record is installed) and
    an ERROR entry only when the call was rejected; it installs what
    [analyzeNFCLogs] returned, or leaves the analysis result alone on a
    rejection; it sets [isAnalyzing] back to false, makes no further
    call, and touches neither the attack state nor the selected amount. *)
Theorem handleAnalyze_settled_effect w s n req :
  let s' := exec (handleAnalyze_settled (Awaiting n req)) w s in
  let returned :=
    match generateContent w n req with Responds _ => true | Rejects _ => false end in
  logs (app s') =
    logs (app s) ++
    [new_entry w s
       (if returned then "Gemini AI Analysis complete."
        else "Failed to analyze logs with Gemini.")
       (if returned then SUCCESS else ERROR) None] /\
  analysis (app s') =
    match analyzeNFCLogs_settle (generateContent w n req) with
    | Fulfilled result => result
    | Rejected _ => analysis (app s)
    end /\
  isAnalyzing (app s') = false /\
  state (app s') = state (app s) /\
  selectedAmount (app s') = selectedAmount (app s) /\
  calls s' = calls s.
Proof. exact (handleAnalyze_settled_cells w s n req). Qed.

(** ** Invariants of the event loop *)

(** What holds of the cells initially and is kept by the five handlers
    holds in every reachable state. *)
Lemma fire_lifts (I : St -> Prop) w :
  (forall s, I s -> I (exec startSimulation_begin w s)) ->
  (forall r s, I s -> I (exec (startSimulation_resume r) w s)) ->
  (forall s, I s -> I (exec handleAnalyze w s)) ->
  (forall p s, I s -> I (exec (handleAnalyze_settled p) w s)) ->
  (forall s, I s -> I (exec resetSimulator w s)) ->
  forall e m m', fire w e m = Some m' -> I (st m) -> I (st m').
Proof.
  intros Hb Hr Ha Hs Hz e m m' H Hm.
  destruct e as [ | | | i]; unfold fire in H.
  - destruct (start_enabled (app (st m))); [ | discriminate].
    specialize (Hb (st m) Hm). unfold exec in Hb.
    destruct (startSimulation_begin w (st m)) as [r s']. inversion H; subst. exact Hb.
  - destruct (analyze_enabled (app (st m))); [ | discriminate].
    specialize (Ha (st m) Hm). unfold exec in Ha.
    destruct (handleAnalyze w (st m)) as [p s']. inversion H; subst. exact Ha.
  - inversion H; subst. apply Hz, Hm.
  - destruct (nth_error (tasks m) i) as [[r | p] | ]; [ | | discriminate].
    + specialize (Hr r (st m) Hm). unfold exec in Hr.
      destruct (startSimulation_resume r w (st m)) as [next s'].
      inversion H; subst. exact Hr.
    + inversion H; subst. apply Hs, Hm.
Qed.

Lemma reachable_lifts (I : St -> Prop) w :
  I boot ->
  (forall s, I s -> I (exec startSimulation_begin w s)) ->
  (forall r s, I s -> I (exec (startSimulation_resume r) w s)) ->
  (forall s, I s -> I (exec handleAnalyze w s)) ->
  (forall p s, I s -> I (exec (handleAnalyze_settled p) w s)) ->
  (forall s, I s -> I (exec resetSimulator w s)) ->
  forall m, reachable w m -> I (st m).
Proof.
  intros H0 Hb Hr Ha Hs Hz m R. induction R as [ | e m m' _ IH F]; [exact H0 | ].
  exact (fire_lifts I w Hb Hr Ha Hs Hz e m m' F IH).
Qed.

Lemma StronglySorted_snoc {A} (R : A -> A -> Prop) l a :
  StronglySorted R l -> Forall (fun x => R x a) l -> StronglySorted R (l ++ [a]).
Proof.
  induction 1 as [ | x l S IH F]; intros Fa; simpl.
  - repeat constructor.
  - inversion Fa; subst. constructor; [now apply IH | ].
    apply Forall_app. split; [exact F | now constructor].
Qed.

Lemma traceable_ret {A} (a : A) : traceable (ret a).
Proof. intros w s H. exact H. Qed.

Lemma traceable_bind {A B} (c : M A) (k : A -> M B) :
  traceable c -> (forall a, traceable (k a)) -> traceable (bind c k).
Proof. intros Hc Hk w s H. rewrite bind_exec. apply Hk, Hc, H. Qed.

Lemma traceable_setState v : traceable (setState v).
Proof. intros w s H. exact H. Qed.

Lemma traceable_setSelectedAmount v : traceable (setSelectedAmount v).
Proof. intros w s H. exact H. Qed.

Lemma traceable_setAnalysis v : traceable (setAnalysis v).
Proof. intros w s H. exact H. Qed.

Lemma traceable_setIsAnalyzing v : traceable (setIsAnalyzing v).
Proof. intros w s H. exact H. Qed.

Lemma traceable_render : traceable render.
Proof. intros w s H. exact H. Qed.

Lemma traceable_call_service : traceable call_service.
Proof. intros w s H. exact H. Qed.

Lemma traceable_random : traceable random.
Proof.
  intros w s (origins & E & S & F). exists origins. repeat split; try assumption.
  simpl. eapply Forall_impl; [ | exact F]. simpl. intros p [H1 H2]. split; lia.
Qed.

Lemma traceable_clear : traceable (setLogs (fun _ => [])).
Proof. intros w s _. exists []. repeat split; constructor. Qed.

Lemma traceable_addLog message lvl d : traceable (addLog message lvl d).
Proof.
  intros w s (origins & E & S & F). rewrite addLog_exec.
  exists (origins ++ [(draws s, readings s)]). simpl. split; [ | split].
  - rewrite !map_app, E. reflexivity.
  - apply StronglySorted_snoc; [exact S | ].
    eapply Forall_impl; [ | exact F]. intros p H. exact H.
  - apply Forall_app. split.
    + eapply Forall_impl; [ | exact F]. simpl. intros p [H1 H2]. split; lia.
    + constructor; [simpl; split; lia | constructor].
Qed.

Create HintDb provenance.
#[local] Hint Resolve traceable_ret traceable_bind traceable_setState
  traceable_setSelectedAmount traceable_setAnalysis traceable_setIsAnalyzing
  traceable_render traceable_call_service traceable_random traceable_clear
  traceable_addLog : provenance.

Lemma traceable_startSimulation_begin : traceable startSimulation_begin.
Proof. unfold startSimulation_begin. auto 10 with provenance. Qed.

Lemma traceable_startSimulation_resume r : traceable (startSimulation_resume r).
Proof. destruct r; unfold startSimulation_resume; auto 14 with provenance. Qed.

Lemma traceable_resetSimulator : traceable resetSimulator.
Proof. unfold resetSimulator. auto 10 with provenance. Qed.

Lemma traceable_handleAnalyze : traceable handleAnalyze.
Proof.
  unfold handleAnalyze. apply traceable_bind; [auto with provenance | ].
  intros a. destruct (List.length (logs a) =? 0)%nat; [auto with provenance | ].
  apply traceable_bind; [auto with provenance | ]. intros _.
  destruct (analyzeNFCLogs_request (logs a)); auto 8 with provenance.
Qed.

Lemma traceable_handleAnalyze_settled p : traceable (handleAnalyze_settled p).
Proof.
  intros w s. destruct p as [n req].
  assert (H : traceable
    (match analyzeNFCLogs_settle (generateContent w n req) with
     | Fulfilled result =>
         setAnalysis result ;; addLog "Gemini AI Analysis complete." SUCCESS None
     | Rejected _ => addLog "Failed to analyze logs with Gemini." ERROR None
     end ;; setIsAnalyzing false)).
  { destruct (analyzeNFCLogs_settle (generateContent w n req));
      auto 8 with provenance. }
  exact (H w s).
Qed.

Lemma reachable_provenance w m : reachable w m -> provenance w (st m).
Proof.
  apply (reachable_lifts (provenance w) w).
  - exists []. repeat split; constructor.
  - intros s. apply traceable_startSimulation_begin.
  - intros r s. apply traceable_startSimulation_resume.
  - intros s. apply traceable_handleAnalyze.
  - intros p s. apply traceable_handleAnalyze_settled.
  - intros s. apply traceable_resetSimulator.
Qed.

Lemma map_pairs_fst {A B C} (f : A -> B * C) (g : A -> B) l :
  (forall x, fst (f x) = g x) -> map fst (map f l) = map g l.
Proof. intros H. rewrite map_map. apply map_ext. exact H. Qed.

(** X10: in every state the application can reach, under any
    interleaving of clicks, timers, service answers and resets, the
    timestamps of the log sequence are in non-decreasing order, provided
    the clock never goes back. *)
Theorem timestamps_are_sorted w m :
  reachable w m ->
  (forall i j, (i <= j)%nat -> Date_now w i <= Date_now w j) ->
  StronglySorted Z.le (map timestamp (logs (app (st m)))).
Proof.
  intros R Hclock. destruct (reachable_provenance w m R) as (origins & E & S & _).
  assert (T : map timestamp (logs (app (st m)))
              = map (fun p => Date_now w (snd p)) origins).
  { apply (f_equal (map snd)) in E. rewrite !map_map in E. exact E. }
  rewrite T. clear E T. induction S as [ | p l S IH F]; simpl; constructor.
  - exact IH.
  - rewrite Forall_map. eapply Forall_impl; [ | exact F].
    intros q [_ H]. apply Hclock. lia.
Qed.

Lemma timestamps_are_sorted_witness :
  match fire_all (sample_world (Responds None))
                 [ClickStart; Wake 0; ClickAnalyze; Wake 0; Wake 0; ClickReset; Wake 0]
                 power_on with
  | Some m => StronglySorted Z.le (map timestamp (logs (app (st m))))
  | None => False
  end.
Proof.
  destruct (fire_all (sample_world (Responds None))
                     [ClickStart; Wake 0; ClickAnalyze; Wake 0; Wake 0; ClickReset; Wake 0]
                     power_on)
    as [m | ] eqn:H; [ | vm_compute in H; discriminate H].
  apply (timestamps_are_sorted (sample_world (Responds None)) m).
  - exact (fire_all_reachable _ _ _ _ (reach_power_on _) H).
  - intros i j Hij.
    change (1700000000000 + Z.of_nat i <= 1700000000000 + Z.of_nat j). lia.
Defined.

(** X11: in every reachable state the identifiers of the log sequence are
    pairwise distinct, provided the draws made so far have pairwise
    distinct nine-character slices. *)
Theorem identifiers_are_distinct w m :
  reachable w m ->
  (forall i j, (i < draws (st m))%nat -> (j < draws (st m))%nat ->
               fresh_id (Math_random w i) = fresh_id (Math_random w j) -> i = j) ->
  NoDup (map id (logs (app (st m)))).
Proof.
  intros R Hinj. destruct (reachable_provenance w m R) as (origins & E & S & F).
  assert (T : map id (logs (app (st m)))
              = map (fun p => fresh_id (Math_random w (fst p))) origins).
  { apply (f_equal (map fst)) in E. rewrite !map_map in E. exact E. }
  rewrite T. clear E T.
  induction S as [ | p l S IH L]; simpl; constructor.
  - intros Hin. apply in_map_iff in Hin. destruct Hin as (q & Hq & Hin).
    inversion F as [ | ? ? [Hp _] F']; subst.
    rewrite Forall_forall in F', L.
    destruct (F' q Hin) as [Hq' _]. destruct (L q Hin) as [Hlt _].
    specialize (Hinj (fst q) (fst p) Hq' Hp Hq). lia.
  - apply IH. now inversion F.
Qed.

Lemma identifiers_are_distinct_witness :
  match fire_all (sample_world (Responds None))
                 [ClickStart; Wake 0; Wake 0; Wake 0; Wake 0; Wake 0] power_on with
  | Some m => NoDup (map id (logs (app (st m))))
  | None => False
  end.
Proof.
  destruct (fire_all (sample_world (Responds None))
                     [ClickStart; Wake 0; Wake 0; Wake 0; Wake 0; Wake 0] power_on)
    as [m | ] eqn:H; [ | vm_compute in H; discriminate H].
  assert (D : draws (st m) = 8%nat) by (vm_compute in H; inversion H; reflexivity).
  apply (identifiers_are_distinct (sample_world (Responds None)) m).
  - exact (fire_all_reachable _ _ _ _ (reach_power_on _) H).
  - rewrite D. intros i j Hi Hj.
    do 8 (destruct i as [ | i];
          [do 8 (destruct j as [ | j];
                 [first [reflexivity | intros E; vm_compute in E; discriminate E] | ]);
           lia | ]).
    lia.
Defined.

Lemma analyses_app l1 l2 : analyses (l1 ++ l2) = analyses l1 ++ analyses l2.
Proof.
  induction l1 as [ | [r | p] l1 IH]; simpl; [reflexivity | exact IH | now rewrite IH].
Qed.

Lemma simulations_app l1 l2 : simulations (l1 ++ l2) = simulations l1 ++ simulations l2.
Proof.
  induction l1 as [ | [r | p] l1 IH]; simpl; [reflexivity | now rewrite IH | exact IH].
Qed.

Lemma remove_simulation ts : forall i r,
  nth_error ts i = Some (Simulation r) ->
  analyses (remove_nth i ts) = analyses ts /\
  exists before after,
    simulations ts = before ++ r :: after /\
    simulations (remove_nth i ts) = before ++ after.
Proof.
  induction ts as [ | t ts IH]; intros i r H; [destruct i; discriminate | ].
  destruct i as [ | i]; simpl in H.
  - inversion H; subst. split; [reflexivity | ]. now exists [], (simulations ts).
  - destruct (IH i r H) as (A & before & after & S1 & S2).
    destruct t as [r' | p]; simpl; rewrite A; (split; [reflexivity | ]).
    + exists (r' :: before), after. now rewrite S1, S2.
    + now exists before, after.
Qed.

Lemma remove_analysis ts : forall i p,
  nth_error ts i = Some (Analysis p) ->
  simulations (remove_nth i ts) = simulations ts /\
  List.length (analyses ts) = S (List.length (analyses (remove_nth i ts))).
Proof.
  induction ts as [ | t ts IH]; intros i p H; [destruct i; discriminate | ].
  destruct i as [ | i]; simpl in H.
  - inversion H; subst. split; reflexivity.
  - destruct (IH i p H) as (S1 & A).
    destruct t as [r' | p']; simpl; rewrite S1; (split; [reflexivity | ]);
      [exact A | now rewrite A].
Qed.

Lemma handleAnalyze_cases w s :
  let s' := exec handleAnalyze w s in
  state (app s') = state (app s) /\
  selectedAmount (app s') = selectedAmount (app s) /\
  ((logs (app s) = [] /\ eval handleAnalyze w s = None /\ s' = s) \/
   (logs (app s) <> [] /\
    (exists reason, analyzeNFCLogs_request (logs (app s)) = Rejected reason) /\
    eval handleAnalyze w s = None /\ isAnalyzing (app s') = false /\
    calls s' = calls s) \/
   (logs (app s) <> [] /\
    (exists req, analyzeNFCLogs_request (logs (app s)) = Fulfilled req /\
                 eval handleAnalyze w s = Some (Awaiting (calls s) req)) /\
    isAnalyzing (app s') = true /\ calls s' = S (calls s) /\
    logs (app s') = logs (app s) /\ analysis (app s') = analysis (app s))).
Proof.
  unfold exec, eval, handleAnalyze, bind, render.
  destruct (logs (app s)) as [ | e l] eqn:L; simpl.
  - repeat split. left. repeat split.
  - destruct (analyzeNFCLogs_request (e :: l)) as [req | reason] eqn:Q; simpl.
    + repeat split. right. right. repeat split; try discriminate.
      * now exists req.
      * now rewrite L.
    + repeat split. right. left. repeat split; try discriminate. now exists reason.
Qed.

Lemma fire_one_analysis w e m m' :
  fire w e m = Some m' -> one_analysis_in_flight m -> one_analysis_in_flight m'.
Proof.
  unfold one_analysis_in_flight. intros H I.
  destruct e as [ | | | i]; unfold fire in H.
  - destruct (start_enabled (app (st m))); [ | discriminate].
    inversion H; subst. simpl. rewrite analyses_app, length_app, I. simpl.
    destruct (isAnalyzing (app (st m))); reflexivity.
  - destruct (analyze_enabled (app (st m))) eqn:En; [ | discriminate].
    unfold analyze_enabled in En. apply negb_true_iff, orb_false_iff in En.
    destruct En as [_ En]. rewrite En in I.
    pose proof (handleAnalyze_cases w (st m)) as C. unfold exec, eval in C.
    destruct (handleAnalyze w (st m)) as [p s']. inversion H; subst. simpl in *.
    rewrite analyses_app, length_app, I.
    destruct C as (_ & _ & [(_ & -> & ->) | [(_ & _ & -> & -> & _) | (_ & (req & _ & ->) & -> & _)]]);
      simpl; try rewrite En; reflexivity.
  - inversion H; subst. exact I.
  - destruct (nth_error (tasks m) i) as [[r | p] | ] eqn:N; [ | | discriminate].
    + destruct (remove_simulation _ _ _ N) as (A & _).
      assert (E : isAnalyzing (app (exec (startSimulation_resume r) w (st m)))
                  = isAnalyzing (app (st m))) by (destruct r; reflexivity).
      unfold exec in E.
      destruct (startSimulation_resume r w (st m)) as [next s'].
      inversion H; subst. simpl in *. rewrite analyses_app, length_app, A, E, I.
      destruct next; simpl; lia.
    + destruct (remove_analysis _ _ _ N) as (_ & A).
      inversion H; subst. simpl. destruct p as [n req].
      destruct (handleAnalyze_settled_cells w (st m) n req) as (_ & _ & -> & _).
      rewrite A in I. destruct (isAnalyzing (app (st m))); [lia | discriminate].
Qed.

(** X12: in every reachable state at most one analysis request is in
    flight, and [isAnalyzing] is true exactly when one is: the disabled
    button admits no second request, and the [finally] block clears the
    flag whenever a request ends. *)
Theorem at_most_one_analysis_in_flight w m :
  reachable w m ->
  (List.length (analyses (tasks m)) <= 1)%nat /\
  (isAnalyzing (app (st m)) = true <-> analyses (tasks m) <> []).
Proof.
  intros R.
  assert (I : one_analysis_in_flight m).
  { induction R as [ | e m m' _ IH F]; [reflexivity | ].
    exact (fire_one_analysis w e m m' F IH). }
  unfold one_analysis_in_flight in I.
  destruct (isAnalyzing (app (st m))), (analyses (tasks m)); simpl in *;
    try discriminate; (split; [lia | ]); split; congruence.
Qed.

Lemma at_most_one_analysis_in_flight_witness :
  match fire_all (sample_world (Responds None))
                 [ClickStart; ClickAnalyze; Wake 0; ClickReset] power_on with
  | Some m =>
      (List.length (analyses (tasks m)) <= 1)%nat /\
      (isAnalyzing (app (st m)) = true <-> analyses (tasks m) <> [])
  | None => False
  end.
Proof.
  destruct (fire_all (sample_world (Responds None))
                     [ClickStart; ClickAnalyze; Wake 0; ClickReset] power_on)
    as [m | ] eqn:H; [ | vm_compute in H; discriminate H].
  apply (at_most_one_analysis_in_flight (sample_world (Responds None)) m).
  exact (fire_all_reachable _ _ _ _ (reach_power_on _) H).
Defined.

Lemma startSimulation_resume_effect r w s :
  let s' := exec (startSimulation_resume r) w s in
  state (app s') <> IDLE /\ logs (app s') <> [] /\
  match r with
  | Timer1 =>
      eval (startSimulation_resume r) w s = Some Timer2 /\
      state (app s') = CARD_DETECTED /\ selectedAmount (app s') = selectedAmount (app s)
  | Timer2 =>
      eval (startSimulation_resume r) w s = Some Timer3 /\
      state (app s') = PIN_BYPASS /\ selectedAmount (app s') = selectedAmount (app s)
  | Timer3 =>
      eval (startSimulation_resume r) w s = Some (Timer4 (selectedAmount (app s'))) /\
      state (app s') = AMOUNT_SELECTION
  | Timer4 amount =>
      eval (startSimulation_resume r) w s = Some (Timer5 amount) /\
      state (app s') = TRANSACTION_PROCESSING /\
      selectedAmount (app s') = selectedAmount (app s)
  | Timer5 amount =>
      eval (startSimulation_resume r) w s = None /\
      state (app s') = COMPLETED /\ selectedAmount (app s') = selectedAmount (app s)
  end.
Proof.
  destruct r; (split; [discriminate | ]);
    (split; [run_handlers; intros H; apply app_eq_nil in H; destruct H; discriminate | ]);
    repeat split.
Qed.

Lemma announced_run_single a before r after :
  announced_run a = before ++ r :: after ->
  before = [] /\ after = [] /\ announced_run a = [r].
Proof.
  intros H. assert (L : (List.length (announced_run a) <= 1)%nat)
    by (unfold announced_run; destruct (state a); simpl; lia).
  rewrite H, length_app in L. simpl in L.
  destruct before; [ | simpl in L; lia]. destruct after; [ | simpl in L; lia].
  repeat split. exact H.
Qed.

Lemma fire_run_announced w e m m' :
  fire w e m = Some m' -> e <> ClickReset -> run_announced m -> run_announced m'.
Proof.
  unfold run_announced. intros H He I.
  destruct e as [ | | | i]; unfold fire in H.
  - destruct (start_enabled (app (st m))) eqn:En; [ | discriminate].
    inversion H; subst. simpl. rewrite simulations_app, I.
    unfold start_enabled in En. unfold announced_run.
    destruct (state (app (st m))); try discriminate En. reflexivity.
  - destruct (analyze_enabled (app (st m))); [ | discriminate].
    destruct (handleAnalyze_cases w (st m)) as (S1 & S2 & _). unfold exec in S1, S2.
    destruct (handleAnalyze w (st m)) as [p s']. inversion H; subst. simpl in *.
    rewrite simulations_app, I. unfold announced_run. rewrite S1, S2.
    destruct p; simpl; apply app_nil_r.
  - congruence.
  - destruct (nth_error (tasks m) i) as [[r | p] | ] eqn:N; [ | | discriminate].
    + destruct (remove_simulation _ _ _ N) as (_ & before & after & S1 & S2).
      rewrite I in S1. apply announced_run_single in S1.
      destruct S1 as (-> & -> & S1). simpl in S2.
      destruct (startSimulation_resume_effect r w (st m)) as (_ & _ & E).
      unfold exec, eval in E.
      destruct (startSimulation_resume r w (st m)) as [next s'].
      inversion H; subst. simpl in *. rewrite simulations_app, S2. simpl.
      unfold announced_run in S1 |- *.
      destruct r; destruct (state (app (st m))); try discriminate S1;
        inversion S1; subst.
      * destruct E as (-> & -> & _). reflexivity.
      * destruct E as (-> & -> & _). reflexivity.
      * destruct E as (-> & ->). reflexivity.
      * destruct E as (-> & -> & ->). reflexivity.
      * destruct E as (-> & -> & _). reflexivity.
    + destruct (remove_analysis _ _ _ N) as (S1 & _).
      inversion H; subst. simpl. destruct p as [n req].
      destruct (handleAnalyze_settled_cells w (st m) n req)
        as (_ & _ & _ & E1 & E2 & _).
      rewrite S1, I. unfold announced_run. now rewrite E1, E2.
Qed.

Lemma fire_all_run_announced w es : forall m m',
  fire_all w es m = Some m' -> ~ In ClickReset es ->
  run_announced m -> run_announced m'.
Proof.
  induction es as [ | e es IH]; intros m m' H Hno I; simpl in H.
  - inversion H; subst. exact I.
  - destruct (fire w e m) as [m1 | ] eqn:F; [ | discriminate].
    apply (IH m1 m' H); [intros Hin; apply Hno; now right | ].
    apply (fire_run_announced w e m m1 F); [ | exact I].
    intros ->. apply Hno. now left.
Qed.

(** X13: as long as reset is not clicked, at most one run of
    [startSimulation] is in progress, and the attack state tells where it
    stands: no run is suspended when the state is idle or completed, and
    otherwise exactly the run waiting on the timer that follows the
    current stage, carrying the selected amount once it is drawn. *)
Theorem one_run_without_reset w es m :
  fire_all w es power_on = Some m ->
  ~ In ClickReset es ->
  simulations (tasks m) = announced_run (app (st m)) /\
  (List.length (simulations (tasks m)) <= 1)%nat.
Proof.
  intros H Hno.
  assert (I : run_announced m)
    by (apply (fire_all_run_announced w es power_on m H Hno); reflexivity).
  split; [exact I | ]. rewrite I. unfold announced_run.
  destruct (state (app (st m))); simpl; lia.
Qed.

Lemma one_run_without_reset_witness :
  match fire_all (sample_world (Responds None))
                 [ClickStart; Wake 0; ClickAnalyze; Wake 0; Wake 1; Wake 0] power_on with
  | Some m =>
      simulations (tasks m) = announced_run (app (st m)) /\
      (List.length (simulations (tasks m)) <= 1)%nat
  | None => False
  end.
Proof.
  destruct (fire_all (sample_world (Responds None))
                     [ClickStart; Wake 0; ClickAnalyze; Wake 0; Wake 1; Wake 0] power_on)
    as [m | ] eqn:H; [ | vm_compute in H; discriminate H].
  apply (one_run_without_reset (sample_world (Responds None)) _ m H).
  simpl. intros [E | [E | [E | [E | [E | [E | []]]]]]]; discriminate E.
Defined.

(** X14: a reset does not stop a run in progress: when the next timer of
    a suspended run fires after the reset, the attack state leaves idle
    again and the emptied log receives the entries of that stretch. *)
Theorem reset_does_not_cancel_run w m i r m' :
  nth_error (tasks m) i = Some (Simulation r) ->
  fire_all w [ClickReset; Wake i] m = Some m' ->
  state (app (st m')) <> IDLE /\
  logs (app (st m')) <> [] /\
  state (app (st m')) =
    state (app (exec (startSimulation_resume r) w (st m))).
Proof.
  intros N H. simpl in H. rewrite N in H.
  destruct (startSimulation_resume_effect r w (exec resetSimulator w (st m)))
    as (E1 & E2 & _).
  assert (E3 : state (app (exec (startSimulation_resume r) w
                                 (exec resetSimulator w (st m))))
               = state (app (exec (startSimulation_resume r) w (st m))))
    by (destruct r; reflexivity).
  set (s0 := exec resetSimulator w (st m)) in *.
  unfold exec in E1, E2, E3 |- *.
  destruct (startSimulation_resume r w s0) as [next s'].
  inversion H; subst. simpl in *. repeat split; assumption.
Qed.

Lemma reset_does_not_cancel_run_witness :
  match fire_all (sample_world (Responds None)) [ClickStart] power_on with
  | Some m =>
      match fire_all (sample_world (Responds None)) [ClickReset; Wake 0] m with
      | Some m' =>
          state (app (st m')) <> IDLE /\
          logs (app (st m')) <> [] /\
          state (app (st m')) =
            state (app (exec (startSimulation_resume Timer1)
                             (sample_world (Responds None)) (st m)))
      | None => False
      end
  | None => False
  end.
Proof.
  destruct (fire_all (sample_world (Responds None)) [ClickStart] power_on)
    as [m | ] eqn:H0; [ | vm_compute in H0; discriminate H0].
  assert (N : nth_error (tasks m) 0 = Some (Simulation Timer1))
    by (vm_compute in H0; inversion H0; reflexivity).
  destruct (fire_all (sample_world (Responds None)) [ClickReset; Wake 0] m)
    as [m' | ] eqn:H;
    [ | vm_compute in H0; inversion H0; subst; vm_compute in H; discriminate H].
  exact (reset_does_not_cancel_run (sample_world (Responds None)) m 0 Timer1 m' N H).
Defined.

(** X15: when the clock readings made so far are all time values that
    [Date] can print, a click on the enabled analyze button in a
    reachable state never fails before the call: it issues exactly one
    service call, for a request built from the log, and sets
    [isAnalyzing]. *)
Theorem analyze_click_calls_service w m :
  reachable w m ->
  (forall i, (i < readings (st m))%nat -> valid_time (Date_now w i)) ->
  analyze_enabled (app (st m)) = true ->
  exists req,
    analyzeNFCLogs_request (logs (app (st m))) = Fulfilled req /\
    eval handleAnalyze w (st m) = Some (Awaiting (calls (st m)) req) /\
    calls (exec handleAnalyze w (st m)) = S (calls (st m)) /\
    isAnalyzing (app (exec handleAnalyze w (st m))) = true.
Proof.
  intros R Hclock En.
  destruct (reachable_provenance w m R) as (origins & E & _ & F).
  assert (V : Forall (fun e => valid_time (timestamp e)) (logs (app (st m)))).
  { apply (f_equal (map snd)) in E. rewrite !map_map in E.
    assert (E' : map timestamp (logs (app (st m)))
                 = map (fun p => Date_now w (snd p)) origins) by exact E.
    apply (proj1 (Forall_map timestamp valid_time _)). rewrite E', Forall_map.
    eapply Forall_impl; [ | exact F]. intros p [_ Hp]. apply Hclock, Hp. }
  unfold analyze_enabled in En. apply negb_true_iff, orb_false_iff in En.
  destruct En as [En _].
  destruct (handleAnalyze_cases w (st m))
    as (_ & _ & [(L & _) | [(_ & (reason & Q) & _) | (_ & (req & Q & Ev) & A & C & _)]]).
  - rewrite L in En. discriminate En.
  - pose proof (request_range (logs (app (st m)))) as X.
    rewrite Q in X. destruct X as [_ X]. apply Exists_exists in X.
    destruct X as (e & He & Hbad). rewrite Forall_forall in V.
    destruct (Hbad (V e He)).
  - exists req. repeat split; assumption.
Qed.

Lemma analyze_click_calls_service_witness :
  match fire_all (sample_world (Responds None)) [ClickStart; Wake 0] power_on with
  | Some m =>
      exists req,
        analyzeNFCLogs_request (logs (app (st m))) = Fulfilled req /\
        eval handleAnalyze (sample_world (Responds None)) (st m)
        = Some (Awaiting (calls (st m)) req) /\
        calls (exec handleAnalyze (sample_world (Responds None)) (st m))
        = S (calls (st m)) /\
        isAnalyzing (app (exec handleAnalyze (sample_world (Responds None)) (st m)))
        = true
  | None => False
  end.
Proof.
  destruct (fire_all (sample_world (Responds None)) [ClickStart; Wake 0] power_on)
    as [m | ] eqn:H; [ | vm_compute in H; discriminate H].
  apply (analyze_click_calls_service (sample_world (Responds None)) m).
  - exact (fire_all_reachable _ _ _ _ (reach_power_on _) H).
  - assert (D : readings (st m) = 2%nat)
      by (vm_compute in H; inversion H; reflexivity).
    rewrite D. intros i Hi. unfold valid_time.
    change (-8640000000000000 <= 1700000000000 + Z.of_nat i <= 8640000000000000).
    lia.
  - vm_compute in H. inversion H; subst. reflexivity.
Defined.

(** ** The report panel *)

(** X16: a payload that satisfies the schema is always rendered: the
    report lists its recommendations in order, keyed 0, 1, 2, ... *)
Theorem valid_payload_renders v :
  schema_valid v = true ->
  exists items,
    get "recommendations" v = Some (JArr items) /\
    forallb is_string items = true /\
    report_panel v = Fulfilled (Some (mapi (fun rec i => (i, rec)) items)) /\
    map fst (mapi (fun (rec : Json) i => (i, rec)) items) = seq 0 (List.length items) /\
    map snd (mapi (fun (rec : Json) i => (i, rec)) items) = items.
Proof.
  intros H. destruct v as [ | b | m e | s | l | props]; try discriminate H.
  cbn [schema_valid responseSchema forallb fst snd] in H.
  apply andb_prop in H. destruct H as [_ H].
  apply andb_prop in H. destruct H as [_ H].
  apply andb_prop in H. destruct H as [H _].
  unfold report_panel, recommendation_items. cbn [truthy].
  destruct (get "recommendations" (JObj props)) as [[ | | | | items | ] | ];
    try discriminate H.
  exists items. cbn [has_type] in H. repeat split; try assumption.
  - unfold mapi. generalize 0%nat.
    induction items as [ | x items IH]; intros k; simpl; [reflexivity | ].
    f_equal. apply IH. simpl in H. now apply andb_prop in H.
  - unfold mapi. generalize 0%nat.
    induction items as [ | x items IH]; intros k; simpl; [reflexivity | ].
    f_equal. apply IH. simpl in H. now apply andb_prop in H.
Qed.

Lemma valid_payload_renders_witness :
  report_panel (AnalysisResult (JNum 85 0) "Relay Attack"
                               ["Enforce online PIN"; "Limit offline amounts"]
                               "CVM downgrade observed.")
  = Fulfilled (Some [(0%nat, JStr "Enforce online PIN");
                     (1%nat, JStr "Limit offline amounts")]).
Proof.
  destruct (valid_payload_renders
              (AnalysisResult (JNum 85 0) "Relay Attack"
                              ["Enforce online PIN"; "Limit offline amounts"]
                              "CVM downgrade observed.") eq_refl)
    as (items & G & _ & P & _).
  rewrite P. inversion G; subst. reflexivity.
Defined.

(** X17: when the service answers without text, or with an empty text,
    the object that [handleAnalyze] installs cannot be rendered: the
    report panel throws a [TypeError] on its missing recommendations. *)
Theorem textless_answer_breaks_report w s n req text :
  generateContent w n req = Responds text ->
  text_or text "{}" = "{}" ->
  report_panel
    (analysis (app (exec (handleAnalyze_settled (Awaiting n req)) w s)))
  = Rejected "TypeError: analysis.recommendations.map is not a function".
Proof.
  intros H T.
  destruct (handleAnalyze_settled_cells w s n req) as (_ & -> & _).
  rewrite H. unfold analyzeNFCLogs_settle. rewrite T. reflexivity.
Qed.

Lemma textless_answer_breaks_report_witness :
  match analyzeNFCLogs_request sample_logs with
  | Fulfilled req =>
      report_panel
        (analysis (app (exec (handleAnalyze_settled (Awaiting 0 req))
                             (sample_world (Responds None)) boot)))
      = Rejected "TypeError: analysis.recommendations.map is not a function"
  | Rejected _ => False
  end.
Proof.
  destruct (analyzeNFCLogs_request sample_logs) as [req | reason] eqn:Q;
    [ | discriminate Q].
  apply (textless_answer_breaks_report (sample_world (Responds None)) boot 0
           req None); reflexivity.
Defined.

(** ** Where the displayed values come from *)

Lemma handleAnalyze_keeps_analysis w s :
  analysis (app (exec handleAnalyze w s)) = analysis (app s) /\
  selectedAmount (app (exec handleAnalyze w s)) = selectedAmount (app s).
Proof.
  unfold exec, handleAnalyze, bind, render.
  destruct (logs (app s)) as [ | e l]; simpl; [split; reflexivity | ].
  destruct (analyzeNFCLogs_request (e :: l)); split; reflexivity.
Qed.

(** X18: in every reachable state the analysis result is either absent
    or a value that [analyzeNFCLogs] returned for some service call that
    was answered: what it parsed from the answer, or the fallback
    record. *)
Theorem analysis_comes_from_service w m :
  reachable w m ->
  analysis (app (st m)) = JNull \/
  exists n req text,
    generateContent w n req = Responds text /\
    analysis (app (st m)) =
      match JSON.parse (text_or text "{}") with
      | Some v => v
      | None => fallback
      end.
Proof.
  apply (reachable_lifts
           (fun s => analysis (app s) = JNull \/
                     exists n req text,
                       generateContent w n req = Responds text /\
                       analysis (app s) =
                         match JSON.parse (text_or text "{}") with
                         | Some v => v
                         | None => fallback
                         end) w).
  - now left.
  - intros s _. now left.
  - intros r s H. destruct r; exact H.
  - intros s H. now rewrite (proj1 (handleAnalyze_keeps_analysis w s)).
  - intros [n req] s H.
    destruct (handleAnalyze_settled_cells w s n req) as (_ & -> & _).
    unfold analyzeNFCLogs_settle.
    destruct (generateContent w n req) as [text | reason] eqn:G; [ | exact H].
    right. exists n, req, text. split; [exact G | ].
    destruct (JSON.parse (text_or text "{}")); reflexivity.
  - intros s _. now left.
Qed.

Lemma analysis_comes_from_service_witness :
  match fire_all (sample_world (Responds (Some sample_payload)))
                 [ClickStart; ClickAnalyze; Wake 1] power_on with
  | Some m =>
      analysis (app (st m)) = JNull \/
      exists n req text,
        generateContent (sample_world (Responds (Some sample_payload))) n req
        = Responds text /\
        analysis (app (st m)) =
          match JSON.parse (text_or text "{}") with
          | Some v => v
          | None => fallback
          end
  | None => False
  end.
Proof.
  destruct (fire_all (sample_world (Responds (Some sample_payload)))
                     [ClickStart; ClickAnalyze; Wake 1] power_on)
    as [m | ] eqn:H; [ | vm_compute in H; discriminate H].
  apply (analysis_comes_from_service (sample_world (Responds (Some sample_payload))) m).
  exact (fire_all_reachable _ _ _ _ (reach_power_on _) H).
Defined.

(** X19: in every reachable state the selected amount is 0 or lies
    between 20 and 219, provided the floor of two hundred times a draw
    always lies between 0 and 199. *)
Theorem selectedAmount_range w m :
  reachable w m ->
  (forall i, 0 <= times200_floor (Math_random w i) < 200) ->
  selectedAmount (app (st m)) = 0 \/ 20 <= selectedAmount (app (st m)) <= 219.
Proof.
  intros R Hdraw. revert m R.
  apply (reachable_lifts
           (fun s => selectedAmount (app s) = 0 \/ 20 <= selectedAmount (app s) <= 219) w).
  - now left.
  - intros s H. exact H.
  - intros r s H. destruct r; try exact H.
    right. change (20 <= times200_floor (Math_random w (S (draws s))) + 20 <= 219).
    specialize (Hdraw (S (draws s))). lia.
  - intros s H. now rewrite (proj2 (handleAnalyze_keeps_analysis w s)).
  - intros [n req] s H.
    destruct (handleAnalyze_settled_cells w s n req) as (_ & _ & _ & _ & -> & _).
    exact H.
  - intros s _. now left.
Qed.

Lemma selectedAmount_range_witness :
  match fire_all (sample_world (Responds None))
                 [ClickStart; Wake 0; Wake 0; Wake 0] power_on with
  | Some m =>
      selectedAmount (app (st m)) = 0 \/ 20 <= selectedAmount (app (st m)) <= 219
  | None => False
  end.
Proof.
  destruct (fire_all (sample_world (Responds None))
                     [ClickStart; Wake 0; Wake 0; Wake 0] power_on)
    as [m | ] eqn:H; [ | vm_compute in H; discriminate H].
  apply (selectedAmount_range (sample_world (Responds None)) m).
  - exact (fire_all_reachable _ _ _ _ (reach_power_on _) H).
  - intros i. unfold sample_world, Math_random, sample_draws.
    do 9 (destruct i as [ | i]; [simpl; lia | ]).
    destruct i; simpl; lia.
Defined.

(** * The run inside the event loop *)

Lemma nth_error_last {A} (l : list A) x : nth_error (l ++ [x]) (List.length l) = Some x.
Proof. rewrite nth_error_app2, Nat.sub_diag; [reflexivity | lia]. Qed.

Lemma remove_nth_last {A} (l : list A) x : remove_nth (List.length l) (l ++ [x]) = l.
Proof. induction l as [ | y l IH]; simpl; [reflexivity | now rewrite IH]. Qed.

Lemma fire_start w m :
  start_enabled (app (st m)) = true ->
  fire w ClickStart m =
  Some {| st := exec startSimulation_begin w (st m);
          tasks := tasks m ++ [Simulation Timer1] |}.
Proof. intros H. unfold fire. rewrite H. reflexivity. Qed.

Lemma fire_wake_last w ts s r :
  fire w (Wake (List.length ts)) {| st := s; tasks := ts ++ [Simulation r] |} =
  Some {| st := exec (startSimulation_resume r) w s;
          tasks := ts ++ spawn Simulation (eval (startSimulation_resume r) w s) |}.
Proof.
  unfold fire. cbn [tasks st]. rewrite nth_error_last, remove_nth_last.
  unfold exec, eval. destruct (startSimulation_resume r w s). reflexivity.
Qed.

Lemma startSimulation_stretches w s :
  exec startSimulation w s =
  exec (startSimulation_resume
          (Timer5 (selectedAmount (app
             (exec (startSimulation_resume Timer3) w
                (exec (startSimulation_resume Timer2) w
                   (exec (startSimulation_resume Timer1) w
                      (exec startSimulation_begin w s)))))))) w
    (exec (startSimulation_resume
             (Timer4 (selectedAmount (app
                (exec (startSimulation_resume Timer3) w
                   (exec (startSimulation_resume Timer2) w
                      (exec (startSimulation_resume Timer1) w
                         (exec startSimulation_begin w s)))))))) w
       (exec (startSimulation_resume Timer3) w
          (exec (startSimulation_resume Timer2) w
             (exec (startSimulation_resume Timer1) w
                (exec startSimulation_begin w s))))).
Proof.
  set (s1 := exec startSimulation_begin w s).
  set (s2 := exec (startSimulation_resume Timer1) w s1).
  set (s3 := exec (startSimulation_resume Timer2) w s2).
  set (s4 := exec (startSimulation_resume Timer3) w s3).
  unfold startSimulation.
  rewrite bind_exec. change (eval startSimulation_begin w s) with Timer1. fold s1.
  rewrite bind_exec. change (eval (startSimulation_resume Timer1) w s1) with (Some Timer2).
  fold s2.
  rewrite bind_exec. cbn [startSimulation_resume_next].
  change (eval (startSimulation_resume Timer2) w s2) with (Some Timer3). fold s3.
  rewrite bind_exec. cbn [startSimulation_resume_next].
  change (eval (startSimulation_resume Timer3) w s3)
    with (Some (Timer4 (selectedAmount (app s4)))). fold s4.
  rewrite bind_exec. cbn [startSimulation_resume_next].
  change (eval (startSimulation_resume (Timer4 (selectedAmount (app s4)))) w s4)
    with (Some (Timer5 (selectedAmount (app s4)))).
  reflexivity.
Qed.

(** The composite [startSimulation] is what the event loop does on an
    uninterrupted run: the click on start followed by the five wake-ups
    of the run, nothing else in between, leaves the cells as the
    composite does and no task more than before. *)
Lemma uninterrupted_run_fires w m :
  start_enabled (app (st m)) = true ->
  fire_all w (uninterrupted_run m) m =
  Some {| st := exec startSimulation w (st m); tasks := tasks m |}.
Proof.
  intros H. unfold uninterrupted_run. cbn [repeat fire_all].
  rewrite (fire_start w m H).
  rewrite fire_wake_last.
  change (eval (startSimulation_resume Timer1) w (exec startSimulation_begin w (st m)))
    with (Some Timer2). cbn [spawn].
  rewrite fire_wake_last.
  match goal with
  | |- context [spawn Simulation (eval (startSimulation_resume Timer2) w ?s)] =>
      change (eval (startSimulation_resume Timer2) w s) with (Some Timer3)
  end. cbn [spawn].
  rewrite fire_wake_last.
  match goal with
  | |- context [spawn Simulation (eval (startSimulation_resume Timer3) w ?s)] =>
      change (eval (startSimulation_resume Timer3) w s)
        with (Some (Timer4 (selectedAmount (app (exec (startSimulation_resume Timer3) w s)))))
  end. cbn [spawn].
  rewrite fire_wake_last.
  match goal with
  | |- context [spawn Simulation (eval (startSimulation_resume (Timer4 ?a)) w ?s)] =>
      change (eval (startSimulation_resume (Timer4 a)) w s) with (Some (Timer5 a))
  end. cbn [spawn].
  rewrite fire_wake_last.
  match goal with
  | |- context [spawn Simulation (eval (startSimulation_resume (Timer5 ?a)) w ?s)] =>
      change (eval (startSimulation_resume (Timer5 a)) w s) with (@None Run)
  end. cbn [spawn].
  rewrite app_nil_r, startSimulation_stretches. reflexivity.
Qed.

(** C2, as the code has it: every uninterrupted execution of
    [startSimulation], started by the click on start in the idle state
    and run to its end with no other event handled between its six
    stretches, is accepted by the event loop and leaves no task behind;
    it appends exactly seven entries to the log sequence (so seven
    entries in all when the log is empty at the start), leaves the state
    completed, and the amount drawn once at the amount-selection step is
    the selected amount, ends the message of the fifth entry and ends the
    message of the last entry. *)
Theorem startSimulation_outcome w m :
  start_enabled (app (st m)) = true ->
  exists m',
    fire_all w (uninterrupted_run m) m = Some m' /\
    tasks m' = tasks m /\
    st m' = exec startSimulation w (st m) /\
    state (app (st m')) = COMPLETED /\
    selectedAmount (app (st m'))
    = times200_floor (Math_random w (4 + draws (st m))) + 20 /\
    List.length (logs (app (st m'))) = (List.length (logs (app (st m))) + 7)%nat /\
    exists e1 e2 e3 e4 e5 e6 e7,
      logs (app (st m')) = logs (app (st m)) ++ [e1; e2; e3; e4; e5; e6; e7] /\
      message e5 = "Force-selecting withdrawal amount: $"
                   +++ show (times200_floor (Math_random w (4 + draws (st m))) + 20) /\
      message e7 =
        "Simulation complete. Transaction accepted by mock gateway. Total: $"
        +++ show (times200_floor (Math_random w (4 + draws (st m))) + 20).
Proof.
  intros H.
  exists {| st := exec startSimulation w (st m); tasks := tasks m |}.
  split; [exact (uninterrupted_run_fires w m H) | ].
  split; [reflexivity | ]. split; [reflexivity | ]. cbn [st].
  destruct (startSimulation_composite_outcome w (st m)) as (_ & C & A & L & E).
  repeat split; assumption.
Qed.

Lemma startSimulation_outcome_witness :
  exists m',
    fire_all (sample_world (Responds None)) (uninterrupted_run power_on) power_on
    = Some m' /\
    tasks m' = [] /\
    state (app (st m')) = COMPLETED /\
    selectedAmount (app (st m')) = 95 /\
    List.length (logs (app (st m'))) = 7%nat.
Proof.
  destruct (startSimulation_outcome (sample_world (Responds None)) power_on eq_refl)
    as (m' & F & T & _ & C & A & L & _).
  exists m'. repeat split; assumption.
Defined.

(** ** The order of the stages *)

Lemma stateless_ret {A} (a : A) : stateless (ret a).
Proof. intros w s. split; reflexivity. Qed.

Lemma stateless_bind {A B} (c : M A) (k : A -> M B) :
  stateless c -> (forall a, stateless (k a)) -> stateless (bind c k).
Proof.
  intros Hc Hk w s. rewrite bind_exec.
  destruct (Hc w s) as [C1 C2].
  destruct (Hk (eval c w s) w (exec c w s)) as [K1 K2].
  split; congruence.
Qed.

Lemma stateless_setLogs f : stateless (setLogs f).
Proof.
  intros w s. split; [ | reflexivity].
  change (history (exec (setLogs f) w s))
    with (history s ++ [SetLogs (f (logs (app s)))]).
  rewrite state_writes_app. apply app_nil_r.
Qed.

Lemma stateless_setSelectedAmount v : stateless (setSelectedAmount v).
Proof.
  intros w s. split; [ | reflexivity].
  change (history (exec (setSelectedAmount v) w s))
    with (history s ++ [SetSelectedAmount v]).
  rewrite state_writes_app. apply app_nil_r.
Qed.

Lemma stateless_setAnalysis v : stateless (setAnalysis v).
Proof.
  intros w s. split; [ | reflexivity].
  change (history (exec (setAnalysis v) w s)) with (history s ++ [SetAnalysis v]).
  rewrite state_writes_app. apply app_nil_r.
Qed.

Lemma stateless_setIsAnalyzing v : stateless (setIsAnalyzing v).
Proof.
  intros w s. split; [ | reflexivity].
  change (history (exec (setIsAnalyzing v) w s)) with (history s ++ [SetIsAnalyzing v]).
  rewrite state_writes_app. apply app_nil_r.
Qed.

Lemma stateless_random : stateless random.
Proof. intros w s. split; reflexivity. Qed.

Lemma stateless_now : stateless now.
Proof. intros w s. split; reflexivity. Qed.

Lemma stateless_render : stateless render.
Proof. intros w s. split; reflexivity. Qed.

Lemma stateless_call_service : stateless call_service.
Proof. intros w s. split; reflexivity. Qed.

Lemma stateless_addLog message lvl d : stateless (addLog message lvl d).
Proof.
  unfold addLog. apply stateless_bind; [apply stateless_random | intros r].
  apply stateless_bind; [apply stateless_now | intros t]. apply stateless_setLogs.
Qed.

Create HintDb stage_order.
#[local] Hint Resolve stateless_ret stateless_bind stateless_setLogs
  stateless_setSelectedAmount stateless_setAnalysis stateless_setIsAnalyzing
  stateless_random stateless_now stateless_render stateless_call_service
  stateless_addLog : stage_order.









